(** * Khael Apartments: the listing-management backend

    A shallow embedding of the Express handlers of
    [khael-apartments-backend] (controllers/apartmentController.js,
    controllers/authController.js, routes/apartments.js, middleware/auth.js,
    database/init.js) over an explicit model of the SQLite store, followed by
    the properties of the listing contract.

    Conventions of the embedding.
    - A handler is a function from the store (and the parts of the request it
      reads) to a response and the store it leaves behind.
    - A table is the list of its rows in rowid order together with the
      AUTOINCREMENT counter kept in [sqlite_sequence].
    - [CURRENT_TIMESTAMP] is an explicit argument [now].
    - A path parameter ([req.params.id]) is the integer that SQLite's column
      affinity makes of the path segment when it is compared with an INTEGER
      column.
    - A JavaScript number is an integer. *)

From Stdlib Require Import ZArith Lia Ascii String.
From stdpp Require Import base gmap strings list sorting pretty.

Set Warnings "-register-all".

Local Open Scope string_scope.
Local Open Scope Z_scope.

(** ** JavaScript values *)

Module JS.

(** The values a parsed JSON request body can hold, and [undefined] for a
    property that is not there. *)
Inductive jsval : Type :=
| JUndefined
| JNull
| JBool (b : bool)
| JNum (n : Z)
| JStr (s : string)
| JArr (elems : list jsval)
| JObj (fields : list (string * jsval)).

(** [Boolean(v)], the test behind [!v], [v ? a : b] and [v || w]. *)
Definition truthy (v : jsval) : bool :=
  match v with
  | JUndefined | JNull => false
  | JBool b => b
  | JNum n => negb (n =? 0)
  | JStr s => negb (String.eqb s EmptyString)
  | JArr _ | JObj _ => true
  end.

(** A request body after [express.json()]: an object. *)
Abbreviation object := (gmap string jsval).

(** Property read [o.k]: [undefined] when the key is absent. *)
Definition prop (o : object) (k : string) : jsval :=
  default JUndefined (o !! k).

(** A destructuring default [{ k = d } = o] applies to [undefined] only. *)
Definition prop_default (o : object) (k : string) (d : jsval) : jsval :=
  match prop o k with
  | JUndefined => d
  | v => v
  end.

(** [Array.isArray(v) ? Some elements : None]. *)
Definition as_array (v : jsval) : option (list jsval) :=
  match v with
  | JArr l => Some l
  | _ => None
  end.

(** [s.split(sep)] for a one-character separator. *)
Fixpoint split_on (sep : ascii) (s : string) : list string :=
  match s with
  | EmptyString => [EmptyString]
  | String c rest =>
      if Ascii.eqb c sep then EmptyString :: split_on sep rest
      else match split_on sep rest with
           | [] => [String c EmptyString]
           | w :: ws => String c w :: ws
           end
  end.

(** [s.startsWith(p)]. *)
Definition startsWith (s p : string) : bool := String.prefix p s.

End JS.
Import JS.

(** ** The store *)

Module DB.

(** What better-sqlite3 hands to SQLite for a bound parameter. *)
Inductive sqlval : Type :=
| SNull
| SInt (n : Z)
| SText (s : string).

(** Exceptions the handlers catch: from the binding of a parameter, from a
    constraint of the schema, from [bcrypt.compare] on a value that is not a
    string, from [jwt.sign] without a secret, and from reading a property of
    [undefined]. *)
Inductive exn : Type :=
| BindTypeError
| NotNullConstraint (column : string)
| IllegalArguments
| SignError
| UndefinedProperty.

Definition exn_message (e : exn) : string :=
  match e with
  | BindTypeError =>
      "SQLite3 can only bind numbers, strings, bigints, buffers, and null"
  | NotNullConstraint c => "NOT NULL constraint failed: " +:+ c
  | IllegalArguments => "Illegal arguments"
  | SignError => "secretOrPrivateKey must have a value"
  | UndefinedProperty => "Cannot read properties of undefined"
  end.

(** Parameter binding of better-sqlite3: numbers, strings and [null] are
    bound; any other value, [undefined] included, makes [run]/[get]/[all]
    throw a TypeError before the statement executes. *)
Definition bind (v : jsval) : exn + sqlval :=
  match v with
  | JNull => inr SNull
  | JNum n => inr (SInt n)
  | JStr s => inr (SText s)
  | JUndefined | JBool _ | JArr _ | JObj _ => inl BindTypeError
  end.

(** Table [apartments].  The columns the handlers pass through unchanged
    hold whatever was bound.  [available] and [featured] are only ever
    written as [x ? 1 : 0] (or by their DEFAULT), [amenities] only as
    [JSON.stringify] of an array or NULL: the column holds the array the
    JSON text encodes, and [JSON.parse] of the column gives it back. *)
Record apartment : Type := mkApartment {
  a_id : Z;
  title : sqlval;
  description : sqlval;
  bedrooms : sqlval;
  bathrooms : sqlval;
  max_guests : sqlval;
  price_per_night : sqlval;
  address : sqlval;
  city : sqlval;
  state : sqlval;
  available : Z;
  featured : Z;
  amenities : option (list jsval);
  created_at : Z;
  updated_at : Z
}.

(** Table [apartment_images]. *)
Record image : Type := mkImage {
  i_id : Z;
  i_apartment_id : Z;
  image_url : string;
  is_primary : Z;
  display_order : Z
}.

(** Table [apartment_videos]. *)
Record video : Type := mkVideo {
  v_id : Z;
  v_apartment_id : Z;
  video_url : string
}.

(** Table [admin_users]; [password] is the bcrypt hash. *)
Record admin_user : Type := mkAdmin {
  u_id : Z;
  username : string;
  password : string
}.

(** The database: four tables, and for each AUTOINCREMENT table the
    largest rowid it ever handed out. *)
Record store : Type := mkStore {
  apartments : list apartment;
  apartments_seq : Z;
  apartment_images : list image;
  apartment_images_seq : Z;
  apartment_videos : list video;
  apartment_videos_seq : Z;
  admin_users : list admin_user
}.

(** The tables right after [CREATE TABLE IF NOT EXISTS] on a new file. *)
Definition empty_store : store :=
  mkStore [] 0 [] 0 [] 0 [].

(** Rowid of the next row of an AUTOINCREMENT table: one more than the
    largest rowid that ever existed in it. *)
Definition next_rowid (seq : Z) (ids : list Z) : Z :=
  foldr Z.max seq ids + 1.

(** [SELECT * FROM apartments WHERE id = ?] with [.get]. *)
Definition get_apartment (s : store) (id : Z) : option apartment :=
  List.find (fun a => a_id a =? id) (apartments s).

(** [ORDER BY created_at DESC]. *)
Definition newer_first (a b : apartment) : Prop :=
  created_at b <= created_at a.

Global Instance newer_first_dec a b : Decision (newer_first a b).
Proof. unfold newer_first. apply _. Defined.

(** [SELECT * FROM apartments ORDER BY created_at DESC] *)
Definition select_all_apartments (s : store) : list apartment :=
  merge_sort newer_first (apartments s).

(** [SELECT * FROM apartments WHERE available = 1 ORDER BY created_at DESC] *)
Definition select_available_apartments (s : store) : list apartment :=
  merge_sort newer_first
    (List.filter (fun a => available a =? 1) (apartments s)).

(** [ORDER BY is_primary DESC, display_order ASC]. *)
Definition image_order (x y : image) : Prop :=
  is_primary y < is_primary x
  \/ (is_primary x = is_primary y /\ display_order x <= display_order y).

Global Instance image_order_dec x y : Decision (image_order x y).
Proof. unfold image_order. apply _. Defined.

(** [SELECT * FROM apartment_images WHERE apartment_id = ?
     ORDER BY is_primary DESC, display_order ASC] *)
Definition select_images_ordered (s : store) (id : Z) : list image :=
  merge_sort image_order
    (List.filter (fun i => i_apartment_id i =? id) (apartment_images s)).

(** [SELECT * FROM apartment_images WHERE apartment_id = ?] *)
Definition select_images (s : store) (id : Z) : list image :=
  List.filter (fun i => i_apartment_id i =? id) (apartment_images s).

(** [SELECT * FROM apartment_videos WHERE apartment_id = ?] *)
Definition select_videos (s : store) (id : Z) : list video :=
  List.filter (fun v => v_apartment_id v =? id) (apartment_videos s).

End DB.
Import DB.

(** ** Statements that write *)

Module SQL.

(** Statements run inside the handlers' [try]: a thrown exception is the left
    injection. *)
Definition result (A : Type) : Type := (exn + A)%type.

Notation "'let!' x ':=' m 'in' k" :=
  (match m with inl e => inl e | inr x => k end)
  (at level 10, x pattern, m at level 100, k at level 200,
   format "'[v' 'let!'  x  ':='  m  'in' '/' k ']'").

(** Binds the parameters of a statement, left to right. *)
Fixpoint bind_all (vs : list jsval) : result (list sqlval) :=
  match vs with
  | [] => inr []
  | v :: vs' =>
      let! x := bind v in
      let! xs := bind_all vs' in
      inr (x :: xs)
  end.

(** A [NOT NULL] column refuses NULL. *)
Definition not_null (column : string) (x : sqlval) : result sqlval :=
  match x with
  | SNull => inl (NotNullConstraint column)
  | _ => inr x
  end.

(** [INSERT INTO apartments (title, description, bedrooms, bathrooms,
    max_guests, price_per_night, address, city, state, available, featured,
    amenities) VALUES (?, ..., ?)]: gives [lastInsertRowid] and the new
    store.  [created_at] and [updated_at] take their DEFAULT
    CURRENT_TIMESTAMP. *)
Definition insert_apartment (s : store) (now : Z)
    (title description bedrooms bathrooms max_guests price_per_night
       address city state : jsval)
    (available featured : Z) (amenities : option (list jsval))
  : result (Z * store) :=
  let! title := bind title in
  let! description := bind description in
  let! bedrooms := bind bedrooms in
  let! bathrooms := bind bathrooms in
  let! max_guests := bind max_guests in
  let! price_per_night := bind price_per_night in
  let! address := bind address in
  let! city := bind city in
  let! state := bind state in
  let! title := not_null "apartments.title" title in
  let! bedrooms := not_null "apartments.bedrooms" bedrooms in
  let! bathrooms := not_null "apartments.bathrooms" bathrooms in
  let! max_guests := not_null "apartments.max_guests" max_guests in
  let! price_per_night :=
    not_null "apartments.price_per_night" price_per_night in
  let! address := not_null "apartments.address" address in
  let! city := not_null "apartments.city" city in
  let! state := not_null "apartments.state" state in
  let id := next_rowid (apartments_seq s) (a_id <$> apartments s) in
  let row :=
    mkApartment id title description bedrooms bathrooms max_guests
      price_per_night address city state available featured amenities
      now now in
  inr (id,
       mkStore (apartments s ++ [row]) id
         (apartment_images s) (apartment_images_seq s)
         (apartment_videos s) (apartment_videos_seq s)
         (admin_users s)).

(** The columns an UPDATE passes a request value to unchanged. *)
Inductive column : Type :=
| Title | Description | Bedrooms | Bathrooms | Max_guests
| Price_per_night | Address | City | State.

Definition column_name (c : column) : string :=
  match c with
  | Title => "title" | Description => "description"
  | Bedrooms => "bedrooms" | Bathrooms => "bathrooms"
  | Max_guests => "max_guests" | Price_per_night => "price_per_night"
  | Address => "address" | City => "city" | State => "state"
  end.

Definition column_of_key (k : string) : option column :=
  List.find (fun c => String.eqb (column_name c) k)
    [Title; Description; Bedrooms; Bathrooms; Max_guests;
     Price_per_night; Address; City; State].

Definition get_column (c : column) (r : apartment) : sqlval :=
  match c with
  | Title => title r | Description => description r
  | Bedrooms => bedrooms r | Bathrooms => bathrooms r
  | Max_guests => max_guests r | Price_per_night => price_per_night r
  | Address => address r | City => city r | State => state r
  end.

Definition set_column (c : column) (x : sqlval) (r : apartment) : apartment :=
  let 'mkApartment id t d be ba mg pr ad ci st av fe am cr up := r in
  match c with
  | Title => mkApartment id x d be ba mg pr ad ci st av fe am cr up
  | Description => mkApartment id t x be ba mg pr ad ci st av fe am cr up
  | Bedrooms => mkApartment id t d x ba mg pr ad ci st av fe am cr up
  | Bathrooms => mkApartment id t d be x mg pr ad ci st av fe am cr up
  | Max_guests => mkApartment id t d be ba x pr ad ci st av fe am cr up
  | Price_per_night => mkApartment id t d be ba mg x ad ci st av fe am cr up
  | Address => mkApartment id t d be ba mg pr x ci st av fe am cr up
  | City => mkApartment id t d be ba mg pr ad x st av fe am cr up
  | State => mkApartment id t d be ba mg pr ad ci x av fe am cr up
  end.

(** Every column but [description] is declared NOT NULL. *)
Definition check_column (c : column) (x : sqlval) : result sqlval :=
  match c with
  | Description => inr x
  | _ => not_null ("apartments." +:+ column_name c) x
  end.

(** One [column = ?] of a dynamically built SET clause together with the
    value pushed onto [values] for it. *)
Inductive assignment : Type :=
| SetColumn (c : column) (v : jsval)
| SetAvailable (n : Z)
| SetFeatured (n : Z)
| SetAmenities (a : option (list jsval)).

(** The same once its parameter is bound. *)
Inductive bound_assignment : Type :=
| BoundColumn (c : column) (x : sqlval)
| BoundAvailable (n : Z)
| BoundFeatured (n : Z)
| BoundAmenities (a : option (list jsval)).

Definition bind_assignment (a : assignment) : result bound_assignment :=
  match a with
  | SetColumn c v => let! x := bind v in inr (BoundColumn c x)
  | SetAvailable n => inr (BoundAvailable n)
  | SetFeatured n => inr (BoundFeatured n)
  | SetAmenities a => inr (BoundAmenities a)
  end.

(** [stmt.run(...values)] binds every parameter before the statement
    steps. *)
Fixpoint bind_assignments (sets : list assignment)
  : result (list bound_assignment) :=
  match sets with
  | [] => inr []
  | a :: sets' =>
      let! b := bind_assignment a in
      let! bs := bind_assignments sets' in
      inr (b :: bs)
  end.

(** One assignment applied to the row being updated. *)
Definition assign (r : apartment) (b : bound_assignment) : result apartment :=
  match b with
  | BoundColumn c x =>
      let! x := check_column c x in
      inr (set_column c x r)
  | BoundAvailable n =>
      let 'mkApartment id t d be ba mg pr ad ci st _ fe am cr up := r in
      inr (mkApartment id t d be ba mg pr ad ci st n fe am cr up)
  | BoundFeatured n =>
      let 'mkApartment id t d be ba mg pr ad ci st av _ am cr up := r in
      inr (mkApartment id t d be ba mg pr ad ci st av n am cr up)
  | BoundAmenities a =>
      let 'mkApartment id t d be ba mg pr ad ci st av fe _ cr up := r in
      inr (mkApartment id t d be ba mg pr ad ci st av fe a cr up)
  end.

Fixpoint assign_all (r : apartment) (sets : list bound_assignment)
  : result apartment :=
  match sets with
  | [] => inr r
  | b :: sets' =>
      let! r' := assign r b in
      assign_all r' sets'
  end.

(** [updated_at = CURRENT_TIMESTAMP]. *)
Definition touch (now : Z) (r : apartment) : apartment :=
  let 'mkApartment id t d be ba mg pr ad ci st av fe am cr _ := r in
  mkApartment id t d be ba mg pr ad ci st av fe am cr now.

Fixpoint update_rows (sets : list bound_assignment) (now id : Z)
    (rows : list apartment) : result (list apartment) :=
  match rows with
  | [] => inr []
  | r :: rows' =>
      let! r' :=
        (if a_id r =? id
         then (let! u := assign_all r sets in inr (touch now u))
         else inr r) in
      let! rest := update_rows sets now id rows' in
      inr (r' :: rest)
  end.

(** [UPDATE apartments SET <sets>, updated_at = CURRENT_TIMESTAMP
    WHERE id = ?].  A statement that throws leaves the table as it was. *)
Definition update_apartment (s : store) (sets : list assignment)
    (now id : Z) : result store :=
  let! bound := bind_assignments sets in
  let! rows := update_rows bound now id (apartments s) in
  inr (mkStore rows (apartments_seq s)
         (apartment_images s) (apartment_images_seq s)
         (apartment_videos s) (apartment_videos_seq s)
         (admin_users s)).

(** [DELETE FROM apartments WHERE id = ?] with [foreign_keys = ON]: the
    [ON DELETE CASCADE] of [apartment_images] and [apartment_videos] removes
    the rows that reference the deleted apartment. *)
Definition delete_apartment (s : store) (id : Z) : store :=
  mkStore
    (List.filter (fun a => negb (a_id a =? id)) (apartments s))
    (apartments_seq s)
    (List.filter (fun i => negb (i_apartment_id i =? id))
       (apartment_images s))
    (apartment_images_seq s)
    (List.filter (fun v => negb (v_apartment_id v =? id))
       (apartment_videos s))
    (apartment_videos_seq s)
    (admin_users s).

End SQL.
Import SQL.

(** ** Responses *)

Module HTTP.

(** The client-facing shape of a listing:
    [{ ...apt, available: Boolean(apt.available),
       featured: Boolean(apt.featured),
       amenities: apt.amenities ? JSON.parse(apt.amenities) : [],
       images, videos }];
    [images] and [videos] are absent from the answer of an update. *)
Record listing : Type := mkListing {
  row : apartment;
  l_available : bool;
  l_featured : bool;
  l_amenities : list jsval;
  l_images : option (list image);
  l_videos : option (list video)
}.

(** What multer-storage-cloudinary leaves in [req.files] for one file. *)
Record file : Type := mkFile {
  path : string;
  filename : string;
  size : Z
}.

(** [req.admin]: what the token decodes to. *)
Record identity : Type := mkIdentity {
  admin_id : jsval;
  admin_username : jsval
}.

(** JSON bodies: [{ error, message }] on failure, [{ success: true, ... }]
    otherwise. *)
Inductive payload : Type :=
| Error (error message : string)
| ListingList (count : Z) (listings : list listing)
| Listing (message : option string) (apartment : listing)
| Message (message : string)
| Uploaded (message : string) (images : list file)
| LoggedIn (message token : string) (id : Z) (name : string)
| TokenValid (message : string) (admin : identity).

Record response : Type := mkResponse {
  status : Z;
  body : payload
}.

(** [res.json(b)] answers 200. *)
Definition json (b : payload) : response := mkResponse 200 b.

End HTTP.
Import HTTP.

(** ** controllers/apartmentController.js *)

Module ApartmentController.

(** [Boolean(n)] of a number read from an INTEGER column. *)
Definition Boolean (n : Z) : bool := negb (n =? 0).

(** [apt.amenities ? JSON.parse(apt.amenities) : []].  The JSON text of an
    array is never the empty string, so only NULL takes the second branch. *)
Definition parse_amenities (a : option (list jsval)) : list jsval :=
  match a with
  | Some l => l
  | None => []
  end.

(** The object both read handlers build for a row. *)
Definition with_media (s : store) (apt : apartment) : listing :=
  mkListing apt
    (Boolean (available apt)) (Boolean (featured apt))
    (parse_amenities (amenities apt))
    (Some (select_images_ordered s (a_id apt)))
    (Some (select_videos s (a_id apt))).

(** [req.headers.authorization &&
     req.headers.authorization.startsWith('Bearer')] *)
Definition isAdmin (authorization : option string) : bool :=
  match authorization with
  | Some h => truthy (JStr h) && startsWith h "Bearer"
  | None => false
  end.

Definition getAllApartments (s : store) (authorization : option string)
  : response :=
  let apartments :=
    if isAdmin authorization
    then select_all_apartments s
    else select_available_apartments s in
  let apartmentsWithMedia := with_media s <$> apartments in
  json (ListingList (Z.of_nat (length apartmentsWithMedia))
          apartmentsWithMedia).

Definition not_found (id : Z) : response :=
  mkResponse 404
    (Error "Apartment not found" ("No apartment found with ID: " +:+ pretty id)).

Definition getApartmentById (s : store) (id : Z) : response :=
  match get_apartment s id with
  | None => not_found id
  | Some apartment => json (Listing None (with_media s apartment))
  end.

(** [{ ...newApartment, available: ..., featured: ..., amenities: ...,
      images: [], videos: [] }] *)
Definition created_listing (newApartment : apartment) : listing :=
  mkListing newApartment
    (Boolean (available newApartment)) (Boolean (featured newApartment))
    (parse_amenities (amenities newApartment))
    (Some []) (Some []).

(** [{ ...updated, available: ..., featured: ..., amenities: ... }] *)
Definition updated_listing (updated : apartment) : listing :=
  mkListing updated
    (Boolean (available updated)) (Boolean (featured updated))
    (parse_amenities (amenities updated))
    None None.

(** The fields [createApartment] insists on. *)
Definition requiredFields : list string :=
  ["title"; "bedrooms"; "bathrooms"; "max_guests"; "price_per_night";
   "address"; "city"; "state"].

(** [x ? 1 : 0] *)
Definition flag (v : jsval) : Z := if truthy v then 1 else 0.

Definition createApartment (s : store) (now : Z) (body : object)
  : response * store :=
  let title := prop body "title" in
  let description := prop body "description" in
  let bedrooms := prop body "bedrooms" in
  let bathrooms := prop body "bathrooms" in
  let max_guests := prop body "max_guests" in
  let price_per_night := prop body "price_per_night" in
  let address := prop body "address" in
  let city := prop body "city" in
  let state := prop body "state" in
  let available := prop_default body "available" (JBool true) in
  let featured := prop_default body "featured" (JBool false) in
  let amenities := prop_default body "amenities" (JArr []) in
  if negb (truthy title) || negb (truthy bedrooms) || negb (truthy bathrooms)
     || negb (truthy max_guests) || negb (truthy price_per_night)
     || negb (truthy address) || negb (truthy city) || negb (truthy state)
  then
    (mkResponse 400
       (Error "Missing required fields"
          "Title, bedrooms, bathrooms, max_guests, price_per_night, address, city, and state are required"),
     s)
  else
    let amenitiesJson := as_array amenities in
    match insert_apartment s now title description bedrooms bathrooms
            max_guests price_per_night address city state
            (flag available) (flag featured) amenitiesJson with
    | inl e =>
        (mkResponse 500 (Error "Failed to create apartment" (exn_message e)),
         s)
    | inr (lastInsertRowid, s') =>
        match get_apartment s' lastInsertRowid with
        | Some newApartment =>
            (mkResponse 201
               (Listing (Some "Apartment created successfully")
                  (created_listing newApartment)),
             s')
        | None =>
            (mkResponse 500
               (Error "Failed to create apartment"
                  (exn_message UndefinedProperty)),
             s')
        end
    end.

Definition allowedFields : list string :=
  ["title"; "description"; "bedrooms"; "bathrooms"; "max_guests";
   "price_per_night"; "address"; "city"; "state"; "available"; "featured";
   "amenities"].

(** [l.includes(k)] *)
Definition includes (l : list string) (k : string) : bool :=
  existsb (String.eqb k) l.

(** The body of the [forEach] over [Object.keys(updates)]: what one key adds
    to [updateFields] and [values]. *)
Definition update_entry (key : string) (v : jsval) : option assignment :=
  if includes allowedFields key then
    if String.eqb key "available" then Some (SetAvailable (flag v))
    else if String.eqb key "featured" then Some (SetFeatured (flag v))
    else if String.eqb key "amenities" then Some (SetAmenities (as_array v))
    else
      match column_of_key key with
      | Some c => Some (SetColumn c v)
      | None => None
      end
  else None.

Definition update_entries (updates : object) : list assignment :=
  omap (fun kv => update_entry kv.1 kv.2) (map_to_list updates).

Definition updateApartment (s : store) (now id : Z) (updates : object)
  : response * store :=
  match get_apartment s id with
  | None => (not_found id, s)
  | Some existing =>
      let updateFields := update_entries updates in
      if (length updateFields =? 0)%nat then
        (mkResponse 400
           (Error "No valid fields to update"
              "Provide at least one valid field to update"),
         s)
      else
        match update_apartment s updateFields now id with
        | inl e =>
            (mkResponse 500
               (Error "Failed to update apartment" (exn_message e)),
             s)
        | inr s' =>
            match get_apartment s' id with
            | Some updated =>
                (json
                   (Listing (Some "Apartment updated successfully")
                      (updated_listing updated)),
                 s')
            | None =>
                (mkResponse 500
                   (Error "Failed to update apartment"
                      (exn_message UndefinedProperty)),
                 s')
            end
        end
  end.

Section Disk.

(** The file system and [path.join] as [deleteApartment] sees them:
    [unlink p] is [None] when the promise resolves and the error message when
    it rejects. *)
Variable unlink : string -> option string.
Variable path_join : list string -> string.
Variable __dirname : string.

(** [fs.unlink(filePath).catch(err => console.log(...))]: the line logged,
    if any; the promise it yields always resolves. *)
Definition unlink_logged (url : string) : list string :=
  let filePath := path_join [__dirname; ".."; url] in
  match unlink filePath with
  | None => []
  | Some message =>
      ["Could not delete " +:+ filePath +:+ ": " +:+ message]
  end.

(** Gives the response, the store and the lines written to the console. *)
Definition deleteApartment (s : store) (id : Z)
  : response * store * list string :=
  match get_apartment s id with
  | None => (not_found id, s, [])
  | Some apartment =>
      let images := select_images s id in
      let videos := select_videos s id in
      let s' := delete_apartment s id in
      let log :=
        (concat (unlink_logged <$> (image_url <$> images))
         ++ concat (unlink_logged <$> (video_url <$> videos)))%list in
      (json (Message "Apartment deleted successfully"), s', log)
  end.

End Disk.

End ApartmentController.
Import ApartmentController.

(** ** routes/apartments.js: images of a listing *)

Module ApartmentRoutes.

(** [SELECT MAX(display_order) as max_order FROM apartment_images
     WHERE apartment_id = ?]: NULL when the listing has no image. *)
Definition max_order (s : store) (id : Z) : option Z :=
  match display_order <$> select_images s id with
  | [] => None
  | x :: xs => Some (foldr Z.max x xs)
  end.

(** [(maxOrder?.max_order || -1) + 1] *)
Definition first_order (max_order : option Z) : Z :=
  (match max_order with
   | Some m => if truthy (JNum m) then m else -1
   | None => -1
   end) + 1.

(** [INSERT INTO apartment_images (apartment_id, image_url, display_order)
     VALUES (?, ?, ?)]; [is_primary] takes its DEFAULT 0. *)
Definition insert_image (s : store) (apartment_id : Z) (url : string)
    (order : Z) : store :=
  let id := next_rowid (apartment_images_seq s) (i_id <$> apartment_images s) in
  mkStore (apartments s) (apartments_seq s)
    (apartment_images s ++ [mkImage id apartment_id url 0 order]) id
    (apartment_videos s) (apartment_videos_seq s)
    (admin_users s).

(** The [req.files.map((file, index) => ...)] loop from [index] on: the store
    after each INSERT. *)
Fixpoint insert_files (s : store) (id currentOrder index : Z)
    (files : list file) : list store :=
  match files with
  | [] => []
  | f :: files' =>
      let s' := insert_image s id (path f) (currentOrder + index) in
      s' :: insert_files s' id currentOrder (index + 1) files'
  end.

(** POST /:id/images, after [authenticateAdmin] and multer: the response and
    the store after each statement that wrote. *)
Definition uploadImages_steps (s : store) (id : Z) (files : list file)
  : response * list store :=
  match get_apartment s id with
  | None => (not_found id, [])
  | Some apartment =>
      if (length files =? 0)%nat then
        (mkResponse 400
           (Error "No files uploaded"
              "Please select at least one image to upload"),
         [])
      else
        let currentOrder := first_order (max_order s id) in
        (json
           (Uploaded
              (pretty (length files)
               +:+ " image(s) uploaded successfully to Cloudinary")
              files),
         insert_files s id currentOrder 0 files)
  end.

Definition uploadImages (s : store) (id : Z) (files : list file)
  : response * store :=
  let '(r, steps) := uploadImages_steps s id files in
  (r, List.last steps s).

(** [SELECT * FROM apartment_images WHERE id = ? AND apartment_id = ?] *)
Definition get_image (s : store) (imageId apartmentId : Z) : option image :=
  List.find
    (fun i => (i_id i =? imageId) && (i_apartment_id i =? apartmentId))
    (apartment_images s).

Definition set_is_primary (n : Z) (i : image) : image :=
  mkImage (i_id i) (i_apartment_id i) (image_url i) n (display_order i).

Definition with_images (s : store) (images : list image) : store :=
  mkStore (apartments s) (apartments_seq s)
    images (apartment_images_seq s)
    (apartment_videos s) (apartment_videos_seq s)
    (admin_users s).

(** [UPDATE apartment_images SET is_primary = 0 WHERE apartment_id = ?] *)
Definition clear_primary (s : store) (apartmentId : Z) : store :=
  with_images s
    ((fun i => if i_apartment_id i =? apartmentId
               then set_is_primary 0 i else i) <$> apartment_images s).

(** [UPDATE apartment_images SET is_primary = 1 WHERE id = ?] *)
Definition mark_primary (s : store) (imageId : Z) : store :=
  with_images s
    ((fun i => if i_id i =? imageId
               then set_is_primary 1 i else i) <$> apartment_images s).

Definition image_not_found : response :=
  mkResponse 404
    (Error "Image not found"
       "Image does not exist or does not belong to this apartment").

(** PUT /:apartmentId/images/:imageId/primary: the response and the store
    after each of the two UPDATEs. *)
Definition setPrimaryImage_steps (s : store) (apartmentId imageId : Z)
  : response * list store :=
  match get_image s imageId apartmentId with
  | None => (image_not_found, [])
  | Some image =>
      let s1 := clear_primary s apartmentId in
      let s2 := mark_primary s1 imageId in
      (json (Message "Primary image updated successfully"), [s1; s2])
  end.

Definition setPrimaryImage (s : store) (apartmentId imageId : Z)
  : response * store :=
  let '(r, steps) := setPrimaryImage_steps s apartmentId imageId in
  (r, List.last steps s).

(** The two requests that touch the primary flag or add images. *)
Inductive media_request : Type :=
| UploadImages (id : Z) (files : list file)
| SetPrimary (apartmentId imageId : Z).

Definition steps (s : store) (q : media_request) : list store :=
  match q with
  | UploadImages id files => (uploadImages_steps s id files).2
  | SetPrimary apartmentId imageId =>
      (setPrimaryImage_steps s apartmentId imageId).2
  end.

Definition handle (s : store) (q : media_request) : store :=
  match q with
  | UploadImages id files => (uploadImages s id files).2
  | SetPrimary apartmentId imageId =>
      (setPrimaryImage s apartmentId imageId).2
  end.

(** Every store the database goes through while a sequence of requests is
    served one after the other. *)
Fixpoint history (s : store) (qs : list media_request) : list store :=
  match qs with
  | [] => []
  | q :: qs' => (steps s q ++ history (handle s q) qs')%list
  end.

End ApartmentRoutes.
Import ApartmentRoutes.

(** ** database/init.js *)

Module Init.

(** [INSERT INTO apartment_images (apartment_id, image_url, is_primary,
     display_order) VALUES (?, ?, ?, ?)] *)
Definition insert_sample_image (s : store) (apartment_id : Z) (url : string)
    (primary order : Z) : store :=
  let id := next_rowid (apartment_images_seq s) (i_id <$> apartment_images s) in
  mkStore (apartments s) (apartments_seq s)
    (apartment_images s ++ [mkImage id apartment_id url primary order]) id
    (apartment_videos s) (apartment_videos_seq s)
    (admin_users s).

(** Adds one listing with three images, the first of them primary, unless a
    listing exists; an exception is logged and nothing more. *)
Definition addSampleData (s : store) (now : Z) : store :=
  match apartments s with
  | _ :: _ => s
  | [] =>
      match insert_apartment s now
              (JStr "Luxury 2-Bedroom Apartment in Abuja")
              (JStr "Beautiful modern apartment with stunning city views. Fully furnished with high-speed internet, Smart TV, and modern kitchen appliances.")
              (JNum 2) (JNum 2) (JNum 4) (JNum 35000)
              (JStr "123 Cadastral Zone, Maitama") (JStr "Abuja") (JStr "FCT")
              1 0 None with
      | inl _ => s
      | inr (apartmentId, s1) =>
          let s2 :=
            insert_sample_image s1 apartmentId
              "/uploads/images/sample1.jpg" 1 0 in
          let s3 :=
            insert_sample_image s2 apartmentId
              "/uploads/images/sample2.jpg" 0 1 in
          insert_sample_image s3 apartmentId
            "/uploads/images/sample3.jpg" 0 2
      end
  end.

End Init.
Import Init.

(** ** middleware/auth.js *)

Module Middleware.

(** What [jwt.verify(token, process.env.JWT_SECRET)] does: return the decoded
    payload or throw an error with a [name] and a [message]. *)
Inductive verification : Type :=
| Decoded (id name : jsval)
| Thrown (name message : string).

(** The middleware either answers itself or calls [next()] with [req.admin]
    set. *)
Inductive gate : Type :=
| Answer (r : response)
| Next (admin : identity).

Section Verify.

Variable jwt_verify : string -> verification.

Definition authenticateAdmin (authorization : option string) : gate :=
  match authorization with
  | None =>
      Answer (mkResponse 401
                (Error "No authorization token provided" "Please login first"))
  | Some authHeader =>
      if negb (truthy (JStr authHeader)) then
        Answer (mkResponse 401
                  (Error "No authorization token provided"
                     "Please login first"))
      else
        match split_on " " authHeader !! 1%nat with
        | None =>
            Answer (mkResponse 401
                      (Error "Invalid token format"
                         "Token should be: Bearer <token>"))
        | Some token =>
            if negb (truthy (JStr token)) then
              Answer (mkResponse 401
                        (Error "Invalid token format"
                           "Token should be: Bearer <token>"))
            else
              match jwt_verify token with
              | Decoded id name => Next (mkIdentity id name)
              | Thrown name message =>
                  if String.eqb name "JsonWebTokenError" then
                    Answer (mkResponse 401
                              (Error "Invalid token" "Please login again"))
                  else if String.eqb name "TokenExpiredError" then
                    Answer (mkResponse 401
                              (Error "Token expired"
                                 "Your session has expired. Please login again"))
                  else
                    Answer (mkResponse 500
                              (Error "Authentication failed" message))
              end
        end
  end.

(** [router.get(path, authenticateAdmin, handler)] *)
Definition protected {A : Type} (authorization : option string)
    (handler : identity -> A) : response + A :=
  match authenticateAdmin authorization with
  | Answer r => inl r
  | Next admin => inr (handler admin)
  end.

End Verify.

End Middleware.
Import Middleware.

(** ** controllers/authController.js *)

Module AuthController.

Section Crypto.

(** [bcrypt.compare(password, hash)] on two strings, and
    [jwt.sign({ id, username }, process.env.JWT_SECRET, { expiresIn: '24h' })],
    which throws when it has no secret. *)
Variable bcrypt_compare : string -> string -> bool.
Variable jwt_sign : Z -> string -> result string.

(** [SELECT * FROM admin_users WHERE username = ?]: the parameter is bound,
    then compared with the TEXT column, a number through its decimal text. *)
Definition get_admin (s : store) (name : jsval) : result (option admin_user) :=
  let! x := bind name in
  inr (match x with
       | SNull => None
       | SInt n =>
           List.find (fun a => String.eqb (username a) (pretty n))
             (admin_users s)
       | SText u =>
           List.find (fun a => String.eqb (username a) u) (admin_users s)
       end).

Definition invalid_credentials : response :=
  mkResponse 401
    (Error "Invalid credentials" "Username or password is incorrect").

Definition login_failed (e : exn) : response :=
  mkResponse 500 (Error "Login failed" (exn_message e)).

Definition login (s : store) (body : object) : response :=
  let name := prop body "username" in
  let pass := prop body "password" in
  if negb (truthy name) || negb (truthy pass) then
    mkResponse 400
      (Error "Missing credentials" "Username and password are required")
  else
    match get_admin s name with
    | inl e => login_failed e
    | inr None => invalid_credentials
    | inr (Some admin) =>
        match pass with
        | JStr p =>
            if negb (bcrypt_compare p (password admin)) then
              invalid_credentials
            else
              match jwt_sign (u_id admin) (username admin) with
              | inl e => login_failed e
              | inr token =>
                  json (LoggedIn "Login successful" token
                          (u_id admin) (username admin))
              end
        | _ => login_failed IllegalArguments
        end
    end.

End Crypto.

(** [verifyToken], behind [authenticateAdmin]. *)
Definition verifyToken (admin : identity) : response :=
  json (TokenValid "Token is valid" admin).

End AuthController.
Import AuthController.

(** * The rest of the application

    The remaining handlers of routes/apartments.js and the statistics of the
    controller, the router that dispatches to them, what server.js does
    with a request the router leaves, the start-up code of database/init.js
    and database/migrate.js, and the pure parts of the frontend.

    Further conventions.
    - The router sees the parts of the request path below its mount point,
      between the slashes; a trailing slash leaves no part.
    - What the two multer middlewares leave behind ([req.files], [req.file]
      or the error they pass on) is part of the request.
    - bcrypt, jsonwebtoken, the file system and Cloudinary are parameters. *)

(** ** controllers/apartmentController.js: the dashboard statistics *)

Module Statistics.

(** The [statistics] object of the answer. *)
Record statistics : Type := mkStatistics {
  totalApartments : Z;
  availableApartments : Z;
  reservedApartments : Z;
  totalImages : Z;
  featuredApartments : Z
}.

(** [SELECT COUNT( * ) as count FROM apartments WHERE <test>] *)
Definition count_apartments (test : apartment -> bool) (s : store) : Z :=
  Z.of_nat (length (List.filter test (apartments s))).

(** [getStatistics] answers 200 with [{ success: true, statistics }]. *)
Definition getStatistics (s : store) : statistics :=
  mkStatistics
    (Z.of_nat (length (apartments s)))
    (count_apartments (fun a => available a =? 1) s)
    (count_apartments (fun a => available a =? 0) s)
    (Z.of_nat (length (apartment_images s)))
    (count_apartments (fun a => featured a =? 1) s).

End Statistics.
Import Statistics.

(** ** routes/apartments.js: videos and the deletion of an image *)

Module MediaRoutes.

(** Answers whose body is none of the shapes above. *)
Inductive answer : Type :=
| Plain (r : response)
| StatisticsAnswer (st : statistics)
| VideoUploaded (message : string) (video : file).

(** Every answer of the second and third shape is sent with [res.json]. *)
Definition answer_status (a : answer) : Z :=
  match a with
  | Plain r => status r
  | StatisticsAnswer _ | VideoUploaded _ _ => 200
  end.

(** [INSERT INTO apartment_videos (apartment_id, video_url) VALUES (?, ?)] *)
Definition insert_video (s : store) (apartment_id : Z) (url : string)
  : store :=
  let id := next_rowid (apartment_videos_seq s) (v_id <$> apartment_videos s) in
  mkStore (apartments s) (apartments_seq s)
    (apartment_images s) (apartment_images_seq s)
    (apartment_videos s ++ [mkVideo id apartment_id url]) id
    (admin_users s).

(** POST /:id/videos, after [authenticateAdmin] and multer; [upload] is
    [req.file]. *)
Definition uploadVideo (s : store) (id : Z) (upload : option file)
  : answer * store :=
  match get_apartment s id with
  | None => (Plain (not_found id), s)
  | Some apartment =>
      match upload with
      | None =>
          (Plain (mkResponse 400
                    (Error "No file uploaded"
                       "Please select a video to upload")),
           s)
      | Some f =>
          let videoUrl := path f in
          (VideoUploaded "Video uploaded successfully to Cloudinary" f,
           insert_video s id videoUrl)
      end
  end.

(** [parts[parts.length - k]] inside a template literal: a missing element
    prints as "undefined". *)
Definition from_end (parts : list string) (k : nat) : string :=
  match rev parts !! (k - 1)%nat with
  | Some p => p
  | None => "undefined"
  end.

(** The Cloudinary public id [deleteImage] derives from a stored URL:
    [`${folder}/${filename}`] with [folder] the last but one part of the URL
    split at "/", and [filename] the last part up to its first ".". *)
Definition public_id (image_url : string) : string :=
  let urlParts := split_on "/" image_url in
  let filenameWithExt := from_end urlParts 1 in
  let filename :=
    match split_on "." filenameWithExt with
    | f :: _ => f
    | [] => "undefined"
    end in
  let folder := from_end urlParts 2 in
  folder +:+ "/" +:+ filename.

(** [DELETE FROM apartment_images WHERE id = ?] *)
Definition delete_image_row (s : store) (imageId : Z) : store :=
  with_images s
    (List.filter (fun i => negb (i_id i =? imageId)) (apartment_images s)).

Section Cloudinary.

(** [cloudinary.uploader.destroy(publicId)]: [None] when the promise
    resolves, the error message when it rejects. *)
Variable destroy : string -> option string.

(** DELETE /:apartmentId/images/:imageId: the response, the store and the
    lines written to the console. *)
Definition deleteImage (s : store) (apartmentId imageId : Z)
  : response * store * list string :=
  match get_image s imageId apartmentId with
  | None => (image_not_found, s, [])
  | Some image =>
      let publicId := public_id (image_url image) in
      let log :=
        match destroy publicId with
        | None => []
        | Some message => ["Could not delete from Cloudinary: " +:+ message]
        end in
      (json (Message "Image deleted successfully"),
       delete_image_row s imageId, log)
  end.

End Cloudinary.

End MediaRoutes.
Import MediaRoutes.

(** ** database/init.js: the default admin *)

Module Admin.

Section Environment.

(** [process.env.ADMIN_USERNAME], [process.env.ADMIN_PASSWORD] and
    [bcrypt.hashSync(password, 10)]. *)
Variable ADMIN_USERNAME ADMIN_PASSWORD : option string.
Variable hashSync : string -> string.

(** [process.env.X || fallback] *)
Definition env_or (x : option string) (fallback : string) : string :=
  match x with
  | Some v => if truthy (JStr v) then v else fallback
  | None => fallback
  end.

(** [INSERT INTO admin_users (username, password) VALUES (?, ?)], run on
    the empty table only: the UNIQUE username cannot clash.  No statement of
    the program deletes an admin, so the counter of the empty table is 0. *)
Definition insert_admin (s : store) (name hash : string) : store :=
  let id := next_rowid 0 (u_id <$> admin_users s) in
  mkStore (apartments s) (apartments_seq s)
    (apartment_images s) (apartment_images_seq s)
    (apartment_videos s) (apartment_videos_seq s)
    (admin_users s ++ [mkAdmin id name hash]).

(** Creates the default admin unless an admin exists. *)
Definition createDefaultAdmin (s : store) : store :=
  match admin_users s with
  | existingAdmin :: _ => s
  | [] =>
      let name := env_or ADMIN_USERNAME "admin" in
      let pass := env_or ADMIN_PASSWORD "admin123" in
      let hashedPassword := hashSync pass in
      insert_admin s name hashedPassword
  end.

(** [initializeDatabase]: the four [CREATE TABLE IF NOT EXISTS] leave
    existing tables alone, then the default admin is created. *)
Definition initializeDatabase (s : store) : store := createDefaultAdmin s.

End Environment.

End Admin.
Import Admin.
(** ** The router of routes/apartments.js *)

Module Router.

Inductive verb : Type := GET | POST | PUT | DELETE.

(** A part of a route path: a literal or a [:name] parameter. *)
Inductive part : Type :=
| Lit (s : string)
| Param.

Inductive handler : Type :=
| OnGetAll | OnGetById | OnStatistics | OnCreate | OnUpdate | OnDelete
| OnUploadImages | OnUploadVideo | OnDeleteImage | OnSetPrimary.

Record route : Type := mkRoute {
  verb_of : verb;
  pattern : list part;
  guarded : bool;
  handler_of : handler
}.

(** The routes in the order the file registers them; [guarded] says that
    [authenticateAdmin] stands before the handler. *)
Definition routes : list route :=
  [mkRoute GET [] false OnGetAll;
   mkRoute GET [Param] false OnGetById;
   mkRoute GET [Lit "statistics"] true OnStatistics;
   mkRoute POST [] true OnCreate;
   mkRoute PUT [Param] true OnUpdate;
   mkRoute DELETE [Param] true OnDelete;
   mkRoute POST [Param; Lit "images"] true OnUploadImages;
   mkRoute POST [Param; Lit "videos"] true OnUploadVideo;
   mkRoute DELETE [Param; Lit "images"; Param] true OnDeleteImage;
   mkRoute PUT [Param; Lit "images"; Param; Lit "primary"] true OnSetPrimary].

Definition verb_eqb (a b : verb) : bool :=
  match a, b with
  | GET, GET | POST, POST | PUT, PUT | DELETE, DELETE => true
  | _, _ => false
  end.

(** Express compares literal parts without regard to case. *)
Definition lower_ascii (c : ascii) : ascii :=
  let n := nat_of_ascii c in
  if ((65 <=? n) && (n <=? 90))%nat then ascii_of_nat (n + 32) else c.

Fixpoint lower (s : string) : string :=
  match s with
  | EmptyString => EmptyString
  | String c rest => String (lower_ascii c) (lower rest)
  end.

(** Matches the parts of a request path against a route path; gives
    [req.params] in order.  A parameter takes one non-empty part. *)
Fixpoint match_path (pattern : list part) (path : list string)
  : option (list string) :=
  match pattern, path with
  | [], [] => Some []
  | Lit l :: pattern', p :: path' =>
      if String.eqb (lower l) (lower p) then match_path pattern' path'
      else None
  | Param :: pattern', p :: path' =>
      if String.eqb p EmptyString then None
      else
        match match_path pattern' path' with
        | Some params => Some (p :: params)
        | None => None
        end
  | _, _ => None
  end.

Definition matches (m : verb) (path : list string) (r : route) : bool :=
  verb_eqb (verb_of r) m
  && match match_path (pattern r) path with Some _ => true | None => false end.

(** The first registered route that matches; every handler ends the
    request, so no later route is tried. *)
Definition dispatch (m : verb) (path : list string) : option route :=
  List.find (matches m path) routes.

(** A request as the router sees it; [arrival] is what CURRENT_TIMESTAMP
    reads while it is served, [images] and [video] are what the two multer
    middlewares leave: [req.files], [req.file], or the message of the error
    they pass to [next]. *)
Record request : Type := mkRequest {
  arrival : Z;
  method : verb;
  path_of : list string;
  authorization : option string;
  body_of : object;
  images : string + list file;
  video : string + option file
}.

(** How the router leaves a request: answered, passed to the error handler
    of server.js (which answers [err.status || 500]), or passed on because no
    route matched (server.js then answers 404). *)
Inductive outcome : Type :=
| Answered (a : answer)
| Failed (message : string)
| NoRoute.

Section Serve.

Variable jwt_verify : string -> verification.
Variable unlink : string -> option string.
Variable path_join : list string -> string.
Variable __dirname : string.
Variable destroy : string -> option string.

(** The integer SQLite compares with an INTEGER column when [text] is
    bound, if [text] is the text of one. *)
Variable rowid_of : string -> option Z.

Definition no_apartment (id : string) : response :=
  mkResponse 404
    (Error "Apartment not found" ("No apartment found with ID: " +:+ id)).

(** The 404 of a handler that looks a listing up prints [req.params.id] as
    it came in. *)
Definition named (id : string) (r : response) : response :=
  if status r =? 404 then no_apartment id else r.

Definition named_answer (id : string) (a : answer) : answer :=
  match a with
  | Plain r => Plain (named id r)
  | other => other
  end.

(** The handler of a route on the parameters of the path. *)
Definition run (h : handler) (params : list string) (s : store) (q : request)
  : outcome * store * list string :=
  match h with
  | OnGetAll =>
      (Answered (Plain (getAllApartments s (authorization q))), s, [])
  | OnGetById =>
      match params with
      | [id] =>
          match rowid_of id with
          | Some n =>
              (Answered (Plain (named id (getApartmentById s n))), s, [])
          | None => (Answered (Plain (no_apartment id)), s, [])
          end
      | _ => (NoRoute, s, [])
      end
  | OnStatistics => (Answered (StatisticsAnswer (getStatistics s)), s, [])
  | OnCreate =>
      let '(r, s') := createApartment s (arrival q) (body_of q) in
      (Answered (Plain r), s', [])
  | OnUpdate =>
      match params with
      | [id] =>
          match rowid_of id with
          | Some n =>
              let '(r, s') := updateApartment s (arrival q) n (body_of q) in
              (Answered (Plain (named id r)), s', [])
          | None => (Answered (Plain (no_apartment id)), s, [])
          end
      | _ => (NoRoute, s, [])
      end
  | OnDelete =>
      match params with
      | [id] =>
          match rowid_of id with
          | Some n =>
              let '(r, s', log) :=
                deleteApartment unlink path_join __dirname s n in
              (Answered (Plain (named id r)), s', log)
          | None => (Answered (Plain (no_apartment id)), s, [])
          end
      | _ => (NoRoute, s, [])
      end
  | OnUploadImages =>
      match params, images q with
      | [id], inl message => (Failed message, s, [])
      | [id], inr files =>
          match rowid_of id with
          | Some n =>
              let '(r, s') := uploadImages s n files in
              (Answered (Plain (named id r)), s', [])
          | None => (Answered (Plain (no_apartment id)), s, [])
          end
      | _, _ => (NoRoute, s, [])
      end
  | OnUploadVideo =>
      match params, video q with
      | [id], inl message => (Failed message, s, [])
      | [id], inr upload =>
          match rowid_of id with
          | Some n =>
              let '(a, s') := uploadVideo s n upload in
              (Answered (named_answer id a), s', [])
          | None => (Answered (Plain (no_apartment id)), s, [])
          end
      | _, _ => (NoRoute, s, [])
      end
  | OnDeleteImage =>
      match params with
      | [apartmentId; imageId] =>
          match rowid_of apartmentId, rowid_of imageId with
          | Some a, Some i =>
              let '(r, s', log) := deleteImage destroy s a i in
              (Answered (Plain r), s', log)
          | _, _ => (Answered (Plain image_not_found), s, [])
          end
      | _ => (NoRoute, s, [])
      end
  | OnSetPrimary =>
      match params with
      | [apartmentId; imageId] =>
          match rowid_of apartmentId, rowid_of imageId with
          | Some a, Some i =>
              let '(r, s') := setPrimaryImage s a i in
              (Answered (Plain r), s', [])
          | _, _ => (Answered (Plain image_not_found), s, [])
          end
      | _ => (NoRoute, s, [])
      end
  end.

(** One request through the router: the outcome, the store afterwards and
    the lines written to the console. *)
Definition serve (s : store) (q : request) : outcome * store * list string :=
  match dispatch (method q) (path_of q) with
  | None => (NoRoute, s, [])
  | Some r =>
      match match_path (pattern r) (path_of q) with
      | None => (NoRoute, s, [])
      | Some params =>
          if guarded r then
            match authenticateAdmin jwt_verify (authorization q) with
            | Answer refusal => (Answered (Plain refusal), s, [])
            | Next admin => run (handler_of r) params s q
            end
          else run (handler_of r) params s q
      end
  end.


End Serve.

End Router.
Import Router.
(** ** server.js: what follows the routers *)

Module Server.

(** The status the client sees: the 404 handler answers a request no route
    took, the error handler answers [err.status || 500], and the errors of
    the upload middlewares carry no status. *)
Definition final_status (o : outcome) : Z :=
  match o with
  | Answered a => answer_status a
  | Failed _ => 500
  | NoRoute => 404
  end.

End Server.
Import Server.

(** ** database/migrate.js *)

Module Migration.

Inductive event : Type :=
| AddedFeatured
| AddedAmenities
| Completed
| MigrationFailed.

(** [ALTER TABLE apartments ADD COLUMN name ...]: SQLite compares column
    names without regard to case and throws on a duplicate. *)
Definition add_column (columns : list string) (name : string)
  : option (list string) :=
  if existsb (fun c => String.eqb (lower c) (lower name)) columns then None
  else Some (columns ++ [name])%list.

(** The columns of [apartments] as [PRAGMA table_info] lists them; [None]
    when the table does not exist: the PRAGMA then lists nothing and the
    first ALTER TABLE throws.  Gives the columns afterwards and the lines
    written to the console. *)
Definition migrate (table : option (list string))
  : option (list string) * list event :=
  match table with
  | None => (None, [MigrationFailed])
  | Some columnNames =>
      if negb (includes columnNames "featured") then
        match add_column columnNames "featured" with
        | None => (Some columnNames, [MigrationFailed])
        | Some t1 =>
            if negb (includes columnNames "amenities") then
              match add_column t1 "amenities" with
              | None => (Some t1, [AddedFeatured; MigrationFailed])
              | Some t2 =>
                  (Some t2, [AddedFeatured; AddedAmenities; Completed])
              end
            else (Some t1, [AddedFeatured; Completed])
        end
      else if negb (includes columnNames "amenities") then
        match add_column columnNames "amenities" with
        | None => (Some columnNames, [MigrationFailed])
        | Some t2 => (Some t2, [AddedAmenities; Completed])
        end
      else (Some columnNames, [Completed])
  end.

(** The columns [initializeDatabase] creates the table with. *)
Definition created_columns : list string :=
  ["id"; "title"; "description"; "bedrooms"; "bathrooms"; "max_guests";
   "price_per_night"; "address"; "city"; "state"; "available"; "featured";
   "amenities"; "created_at"; "updated_at"].

End Migration.
Import Migration.

(** ** The frontend *)

Module Frontend.

(** *** utils/formatters.js *)


(** [s.replace(pattern, replacement)] for a string pattern: the first
    occurrence only. *)
Fixpoint replace_first (pattern replacement s : string) : string :=
  if String.prefix pattern s then
    replacement +:+ substring (String.length pattern) (String.length s) s
  else
    match s with
    | EmptyString => EmptyString
    | String c rest => String c (replace_first pattern replacement rest)
    end.

(** [getImageUrl(imageUrl)] under [import.meta.env.VITE_API_URL]. *)
Definition getImageUrl (VITE_API_URL : option string) (imageUrl : string)
  : string :=
  if truthy (JStr imageUrl)
     && (startsWith imageUrl "http://" || startsWith imageUrl "https://")
  then imageUrl
  else
    let baseUrl :=
      match VITE_API_URL with
      | Some u =>
          let b := replace_first "/api" EmptyString u in
          if truthy (JStr b) then b else "http://localhost:5000"
      | None => "http://localhost:5000"
      end in
    baseUrl +:+ imageUrl.

(** *** components/ApartmentCard.jsx *)

(** [apartment.images?.find(img => img.is_primary) || apartment.images?.[0]] *)
Definition primaryImage (images : option (list image)) : option image :=
  match images with
  | None => None
  | Some l =>
      match List.find (fun img => Boolean (is_primary img)) l with
      | Some img => Some img
      | None => head l
      end
  end.

(** *** pages/HomePage.jsx *)

(** What the filters read of a listing; its numeric columns are numbers. *)
Record priced : Type := mkPriced {
  listing_id : Z;
  nightly_price : Z;
  bedroom_count : Z
}.

(** The value of the bedrooms select: "all", or an option whose value
    [parseInt] reads as [n]. *)
Inductive bedrooms_choice : Type :=
| AllBedrooms
| Bedrooms (n : Z).

Record filters : Type := mkFilters {
  minPrice : Z;
  maxPrice : Z;
  bedrooms_filter : bedrooms_choice
}.

Definition applyFilters (f : filters) (apartments : list priced)
  : list priced :=
  let filtered :=
    List.filter
      (fun apt => (minPrice f <=? nightly_price apt)
                  && (nightly_price apt <=? maxPrice f))
      apartments in
  match bedrooms_filter f with
  | AllBedrooms => filtered
  | Bedrooms n => List.filter (fun apt => bedroom_count apt =? n) filtered
  end.

Definition resetFilters : filters := mkFilters 0 200000 AllBedrooms.

(** *** components/ImageCarousel.jsx *)

(** The carousel is rendered only when there is an image; [n] is
    [images.length]. *)
Definition goToPrevious (n prevIndex : Z) : Z :=
  if prevIndex =? 0 then n - 1 else prevIndex - 1.

Definition goToNext (n prevIndex : Z) : Z :=
  if prevIndex =? n - 1 then 0 else prevIndex + 1.

Definition goToSlide (index : Z) : Z := index.

(** A click on an arrow, or on the thumbnail that [images.map] renders for
    position [index]. *)
Inductive click : Type :=
| Previous
| Following
| Thumbnail (index : nat).

Definition clicked (n : Z) (currentIndex : Z) (c : click) : Z :=
  match c with
  | Previous => goToPrevious n currentIndex
  | Following => goToNext n currentIndex
  | Thumbnail index => goToSlide (Z.of_nat index)
  end.

(** *** services/api.js *)

(** The request interceptor: the Authorization header a request leaves
    with, given [localStorage.getItem('adminToken')]. *)
Definition attach_token (adminToken : option string) : option string :=
  match adminToken with
  | Some token =>
      if truthy (JStr token) then Some ("Bearer " +:+ token) else None
  | None => None
  end.

(** The response interceptor: the stored token after an answer. *)
Definition after_response (status : Z) (adminToken : option string)
  : option string :=
  if status =? 401 then None else adminToken.

(** *** pages/AdminDashboard.jsx *)

Definition handleAmenityToggle (amenities : list string) (amenity : string)
  : list string :=
  if includes amenities amenity
  then List.filter (fun a => negb (String.eqb a amenity)) amenities
  else (amenities ++ [amenity])%list.

End Frontend.
Import Frontend.

(** * Properties of the listing contract *)

(** ** Vocabulary of the statements *)

(** *** Answers and headers *)

(** The listings an answer of the list operation carries. *)
Definition listed (r : response) : list listing :=
  match body r with
  | ListingList _ ls => ls
  | _ => []
  end.

(** The Authorization header is present and starts with "Bearer". *)
Definition bearer_header (authorization : option string) : Prop :=
  exists h, authorization = Some h /\ startsWith h "Bearer" = true.

(** Primary-first, then ascending display order: no image whose flag is 0
    comes before one whose flag is 1, and two images carrying the same flag
    come in ascending [display_order]. *)
Definition ordered_images (l : list image) : Prop :=
  (forall p q x y, l !! p = Some x -> l !! q = Some y ->
     is_primary x = 1 -> is_primary y = 0 -> (p < q)%nat)
  /\ (forall p q x y, (p < q)%nat -> l !! p = Some x -> l !! q = Some y ->
        is_primary x = is_primary y -> display_order x <= display_order y).

(** The token the middleware looks for: the second of the blank-separated
    parts of the Authorization header, when there is one and it is not
    empty. *)
Definition bearer_token (authorization : option string) : option string :=
  match authorization with
  | None => None
  | Some h =>
      match split_on " " h with
      | _ :: t :: _ => if String.eqb t EmptyString then None else Some t
      | _ => None
      end
  end.

(** The status of the answer when the middleware answers itself. *)
Definition refused (g : gate) : option Z :=
  match g with
  | Answer r => Some (status r)
  | Next _ => None
  end.

(** *** Requests *)

(** A required field is missing from the body or null in it. *)
Definition missing_or_null (body : object) (k : string) : Prop :=
  body !! k = None \/ body !! k = Some JNull.

(** *** Invariants of the store *)

(** The two flags of a row are 0 or 1, the only values the handlers write. *)
Definition boolean_flags (a : apartment) : Prop :=
  (available a = 0 \/ available a = 1) /\ (featured a = 0 \/ featured a = 1).

(** The two flags of every stored listing are 0 or 1. *)
Definition flags_boolean (s : store) : Prop :=
  forall a, a ∈ apartments s -> boolean_flags a.

(** [id INTEGER PRIMARY KEY] of [apartment_images]. *)
Definition unique_image_ids (s : store) : Prop :=
  NoDup (i_id <$> apartment_images s).

(** [FOREIGN KEY (apartment_id) REFERENCES apartments(id)] of the two media
    tables. *)
Definition references_exist (s : store) : Prop :=
  (forall i, i ∈ apartment_images s ->
     exists a, a ∈ apartments s /\ a_id a = i_apartment_id i)
  /\ (forall v, v ∈ apartment_videos s ->
        exists a, a ∈ apartments s /\ a_id a = v_apartment_id v).

(** The number of stored images of a listing whose primary flag is 1. *)
Definition primary_count (s : store) (listing : Z) : nat :=
  length
    (List.filter
       (fun i => (i_apartment_id i =? listing) && (is_primary i =? 1))
       (apartment_images s)).

(** No listing has two primary images. *)
Definition at_most_one_primary (s : store) : Prop :=
  forall listing, (primary_count s listing <= 1)%nat.

(** *** Columns and assignments *)



(** The column an assignment writes. *)
Definition target (a : assignment) : string :=
  match a with
  | SetColumn c _ => column_name c
  | SetAvailable _ => "available"
  | SetFeatured _ => "featured"
  | SetAmenities _ => "amenities"
  end.





(** *** Concrete requests and stores *)

(** A body that names every required field, with no bedroom. *)
Definition studio : object :=
  list_to_map
    [("title", JStr "Studio"); ("description", JStr "One room");
     ("bedrooms", JNum 0); ("bathrooms", JNum 1); ("max_guests", JNum 2);
     ("price_per_night", JNum 15000); ("address", JStr "4 Aminu Kano Crescent");
     ("city", JStr "Abuja"); ("state", JStr "FCT")].

(** The request of the round-trip example: exactly the fields it lists. *)
Definition example_body : object :=
  list_to_map
    [("title", JStr "Test"); ("bedrooms", JNum 2); ("bathrooms", JNum 1);
     ("max_guests", JNum 3); ("price_per_night", JNum 20000);
     ("address", JStr "12 Gana Street"); ("city", JStr "Abuja");
     ("state", JStr "FCT")].

(** A well-formed body of a login request. *)
Definition credentials (name pass : jsval) : object :=
  list_to_map [("username", name); ("password", pass)].

(** A store with the default admin. *)
Definition one_admin : store :=
  mkStore [] 0 [] 0 [] 0 [mkAdmin 1 "admin" "$2a$10$hash"].

(** A [bcrypt.compare] that accepts one password, and a [jwt.sign] that
    always succeeds. *)
Definition accepts_admin123 (password hash : string) : bool :=
  String.eqb password "admin123".

Definition sign_constant (id : Z) (name : string) : result string :=
  inr "token".

(** An uploaded file as Cloudinary reports it. *)
Definition one_file (url : string) : file := mkFile url "photo" 2048.

(** A listing created by [createApartment], then one image uploaded. *)
Definition after_first_upload : store :=
  let created :=
    (createApartment empty_store 0
       (<["description" := JStr "Two rooms"]> example_body)).2 in
  (uploadImages created 1 [one_file "https://res.cloudinary.com/a.jpg"]).2.

(** The store right after [addSampleData] on a new database. *)
Definition sample_store : store := addSampleData empty_store 0.

(** The same with the sample listing taken off the market by an update. *)
Definition reserved_store : store :=
  (updateApartment sample_store 5 1 {["available" := JBool false]}).2.

(** The second sample image is made primary, then a fourth image arrives. *)
Definition sample_requests : list media_request :=
  [SetPrimary 1 2; UploadImages 1 [one_file "https://res.cloudinary.com/c.jpg"]].

(** *** Invariants of the whole store *)

(** [id INTEGER PRIMARY KEY] of [apartments]. *)
Definition unique_apartment_ids (s : store) : Prop :=
  NoDup (a_id <$> apartments s).

(** The AUTOINCREMENT counter of [apartments] is at least every rowid in
    the table. *)
Definition seq_bounds (s : store) : Prop :=
  forall a, a ∈ apartments s -> a_id a <= apartments_seq s.

(** What the schema and the handlers keep true of the store. *)
Definition consistent (s : store) : Prop :=
  flags_boolean s /\ unique_apartment_ids s /\ seq_bounds s
  /\ unique_image_ids s /\ references_exist s /\ at_most_one_primary s.

(** *** Values *)

(** [c] occurs in [s]. *)
Fixpoint contains (c : ascii) (s : string) : bool :=
  match s with
  | EmptyString => false
  | String d rest => Ascii.eqb d c || contains c rest
  end.

(** The parameter can be bound. *)
Definition bindable (v : jsval) : bool :=
  match bind v with
  | inr _ => true
  | inl _ => false
  end.


(** The listing a 201 or 200 answer carries. *)
Definition answered_listing (r : response) : option listing :=
  match body r with
  | Listing _ l => Some l
  | _ => None
  end.

(** The stored image without its primary flag. *)
Definition unflagged (i : image) : Z * Z * string * Z :=
  (i_id i, i_apartment_id i, image_url i, display_order i).

(** What the two UPDATEs of set-primary do to one row. *)
Definition repaint (apartmentId imageId : Z) (i : image) : image :=
  let j := if i_apartment_id i =? apartmentId then set_is_primary 0 i else i in
  if i_id j =? imageId then set_is_primary 1 j else j.


(** ** Queries *)

Section Queries.

Implicit Types (s : store) (a : apartment) (i : image).

Lemma elem_of_List_filter {A} (f : A -> bool) (l : list A) (x : A) :
  x ∈ List.filter f l <-> x ∈ l /\ f x = true.
Proof. rewrite !list_elem_of_In. apply filter_In. Qed.

Lemma filter_none {A} (p : A -> bool) (l : list A) :
  (forall x, x ∈ l -> p x = false) -> List.filter p l = [].
Proof.
  induction l as [|x l IH]; simpl; intros H; [done|].
  rewrite (H x) by (by left). apply IH. intros y Hy. apply H. by right.
Qed.

Lemma elem_of_select_all s a :
  a ∈ select_all_apartments s <-> a ∈ apartments s.
Proof. unfold select_all_apartments. by rewrite merge_sort_Permutation. Qed.

Lemma elem_of_select_available s a :
  a ∈ select_available_apartments s <-> a ∈ apartments s /\ available a = 1.
Proof.
  unfold select_available_apartments.
  rewrite merge_sort_Permutation, elem_of_List_filter.
  by rewrite Z.eqb_eq.
Qed.

Lemma elem_of_select_images_ordered s id i :
  i ∈ select_images_ordered s id
  <-> i ∈ apartment_images s /\ i_apartment_id i = id.
Proof.
  unfold select_images_ordered.
  rewrite merge_sort_Permutation, elem_of_List_filter.
  by rewrite Z.eqb_eq.
Qed.

Global Instance image_order_total : Total image_order.
Proof. intros x y. unfold image_order. lia. Qed.

Global Instance image_order_trans : Transitive image_order.
Proof. intros x y z. unfold image_order. lia. Qed.

(** A strongly sorted list relates every earlier element to every later
    one. *)
Lemma StronglySorted_lookup_lt {A} (R : relation A) (l : list A) :
  StronglySorted R l ->
  forall p q x y, (p < q)%nat -> l !! p = Some x -> l !! q = Some y -> R x y.
Proof.
  induction 1 as [|h t Hs IH Hall]; intros p q x y Hpq Hp Hq.
  - by rewrite lookup_nil in Hp.
  - destruct q as [|q]; [lia|]. simpl in Hq.
    destruct p as [|p]; simpl in Hp.
    + injection Hp as <-. rewrite Forall_forall in Hall.
      apply Hall, list_elem_of_lookup. eauto.
    + apply (IH p q); [lia|done..].
Qed.

Lemma select_images_ordered_sorted s id :
  ordered_images (select_images_ordered s id).
Proof.
  pose proof (StronglySorted_lookup_lt image_order _
                (StronglySorted_merge_sort image_order
                   (List.filter (fun i => i_apartment_id i =? id)
                      (apartment_images s)))) as Hlt.
  fold (select_images_ordered s id) in Hlt.
  split.
  - intros p q x y Hp Hq Hx Hy.
    destruct (decide (p < q)%nat) as [|Hge]; [done|exfalso].
    destruct (decide (p = q)) as [->|Hne].
    + rewrite Hp in Hq. injection Hq as ->. lia.
    + assert (image_order y x) as Ho by (apply (Hlt q p); [lia|done..]).
      unfold image_order in Ho. lia.
  - intros p q x y Hpq Hp Hq Heq.
    pose proof (Hlt p q x y Hpq Hp Hq) as Ho.
    unfold image_order in Ho. lia.
Qed.

(** AUTOINCREMENT never hands out a rowid that is in the table. *)
Lemma next_rowid_fresh (seq : Z) (ids : list Z) :
  next_rowid seq ids ∉ ids.
Proof.
  unfold next_rowid. intros Hin.
  assert (forall x, x ∈ ids -> x <= foldr Z.max seq ids) as Hle.
  { clear Hin. induction ids as [|y ids IH]; intros x Hx.
    - by apply elem_of_nil in Hx.
    - simpl. apply elem_of_cons in Hx as [->|Hx]; [lia|].
      specialize (IH x Hx). lia. }
  specialize (Hle _ Hin). lia.
Qed.

Lemma isAdmin_bearer authorization :
  isAdmin authorization = true <-> bearer_header authorization.
Proof.
  unfold isAdmin, bearer_header. destruct authorization as [h|].
  - split.
    + intros [_ H]%andb_true_iff. eauto.
    + intros (h' & [= <-] & H). apply andb_true_iff. split; [|done].
      destruct h; [discriminate H|done].
  - split; [discriminate|]. by intros (h & [=] & _).
Qed.

End Queries.

(** ** The list operation *)

(** C1.  A request whose Authorization header is present and starts with
    "Bearer" (the token itself is not looked at) is answered with every
    stored listing, whatever its availability; any other request is answered
    with exactly the stored listings that are available, and every listing
    of such an answer has [available = true]. *)
Theorem list_unfiltered_for_bearer_available_otherwise
    (s : store) (authorization : option string) :
  flags_boolean s ->
  let r := getAllApartments s authorization in
  status r = 200
  /\ (bearer_header authorization ->
      forall l, l ∈ listed r <-> exists a, a ∈ apartments s /\ l = with_media s a)
  /\ (~ bearer_header authorization ->
      (forall l, l ∈ listed r <->
         exists a, a ∈ apartments s /\ Boolean (available a) = true
                   /\ l = with_media s a)
      /\ (forall l, l ∈ listed r -> l_available l = true)).
Proof.
  intros Hflags r. subst r. unfold getAllApartments, listed. simpl.
  split; [done|]. split.
  - intros Hb%isAdmin_bearer. rewrite Hb. intros l.
    rewrite list_elem_of_fmap. split.
    + intros (a & -> & Ha%elem_of_select_all). eauto.
    + intros (a & Ha%elem_of_select_all & ->). eauto.
  - intros Hb. rewrite <- isAdmin_bearer in Hb.
    apply not_true_is_false in Hb. rewrite Hb. split.
    + intros l. rewrite list_elem_of_fmap.
      setoid_rewrite elem_of_select_available. split.
      * intros (a & -> & Ha & Hav). exists a. unfold Boolean.
        rewrite Hav. done.
      * intros (a & Ha & Hav & ->). exists a. split; [done|]. split; [done|].
        destruct (proj1 (Hflags a Ha)) as [H0|H1]; [|done].
        unfold Boolean in Hav. rewrite H0 in Hav. discriminate.
    + intros l (a & -> & Hav)%list_elem_of_fmap.
      apply elem_of_select_available in Hav as [_ Hav].
      simpl. unfold Boolean. by rewrite Hav.
Qed.

(** ** Order of the image lists *)


(** ** The create operation *)

Section Create.

Implicit Types (s : store) (body : object).

Lemma elem_of_requiredFields k :
  k ∈ requiredFields <->
  k = "title" \/ k = "bedrooms" \/ k = "bathrooms" \/ k = "max_guests"
  \/ k = "price_per_night" \/ k = "address" \/ k = "city" \/ k = "state".
Proof.
  unfold requiredFields. rewrite !elem_of_cons, elem_of_nil. tauto.
Qed.

(** The guard of [createApartment], read as a search through the required
    fields. *)
Lemma required_guard body :
  negb (truthy (prop body "title")) || negb (truthy (prop body "bedrooms"))
  || negb (truthy (prop body "bathrooms"))
  || negb (truthy (prop body "max_guests"))
  || negb (truthy (prop body "price_per_night"))
  || negb (truthy (prop body "address")) || negb (truthy (prop body "city"))
  || negb (truthy (prop body "state"))
  = existsb (fun k => negb (truthy (prop body k))) requiredFields.
Proof.
  unfold requiredFields. cbn [existsb].
  by rewrite orb_false_r, !orb_assoc.
Qed.

Lemma required_guard_true body :
  existsb (fun k => negb (truthy (prop body k))) requiredFields = true
  <-> exists k, k ∈ requiredFields /\ truthy (prop body k) = false.
Proof.
  rewrite existsb_exists. setoid_rewrite list_elem_of_In.
  setoid_rewrite negb_true_iff. done.
Qed.

(** The guard is the only way to a 400. *)
Lemma createApartment_400 s now body :
  status (createApartment s now body).1 = 400
  <-> exists k, k ∈ requiredFields /\ truthy (prop body k) = false.
Proof.
  rewrite <- required_guard_true.
  unfold createApartment. rewrite required_guard.
  set (ins := insert_apartment _ _ _ _ _ _ _ _ _ _ _ _ _ _).
  clearbody ins.
  destruct (existsb _ requiredFields); [done|].
  split; [|discriminate].
  destruct ins as [e|[id s']]; [discriminate|].
  destruct (get_apartment s' id); discriminate.
Qed.

Lemma createApartment_400_unchanged s now body :
  status (createApartment s now body).1 = 400 ->
  (createApartment s now body).2 = s.
Proof.
  unfold createApartment.
  set (ins := insert_apartment _ _ _ _ _ _ _ _ _ _ _ _ _ _).
  clearbody ins.
  match goal with |- context [if ?c then _ else _] => destruct c end;
    [done|].
  destruct ins as [e|[id s']]; [discriminate|].
  destruct (get_apartment s' id); discriminate.
Qed.

Lemma missing_or_null_falsy body k :
  missing_or_null body k -> truthy (prop body k) = false.
Proof. unfold prop. by intros [-> | ->]. Qed.


(** What a successful INSERT of a listing did. *)
Lemma insert_apartment_inv s now t d be ba mg pr ad ci st av fe am id s' :
  insert_apartment s now t d be ba mg pr ad ci st av fe am = inr (id, s') ->
  id = next_rowid (apartments_seq s) (a_id <$> apartments s)
  /\ apartment_images s' = apartment_images s
  /\ apartment_videos s' = apartment_videos s
  /\ admin_users s' = admin_users s
  /\ exists new, apartments s' = (apartments s ++ [new])%list
       /\ a_id new = id /\ available new = av /\ featured new = fe
       /\ amenities new = am.
Proof.
  unfold insert_apartment, not_null.
  repeat match goal with
    | |- context [bind ?v] => destruct (bind v) as [?|[]]
    end; try discriminate.
  all: intros [= <- <-]; simpl; repeat split; eauto 10.
Qed.

(** The INSERT goes through when every parameter can be bound and the
    required ones are truthy. *)
Lemma bind_truthy_not_null v x c :
  truthy v = true -> bind v = inr x -> not_null c x = inr x.
Proof. destruct v; simpl; try discriminate; by intros _ [= <-]. Qed.

Lemma insert_apartment_bindable s now t d be ba mg pr ad ci st av fe am
    t' d' be' ba' mg' pr' ad' ci' st' :
  bind t = inr t' -> bind d = inr d' -> bind be = inr be' ->
  bind ba = inr ba' -> bind mg = inr mg' -> bind pr = inr pr' ->
  bind ad = inr ad' -> bind ci = inr ci' -> bind st = inr st' ->
  truthy t = true -> truthy be = true -> truthy ba = true ->
  truthy mg = true -> truthy pr = true -> truthy ad = true ->
  truthy ci = true -> truthy st = true ->
  exists id s',
    insert_apartment s now t d be ba mg pr ad ci st av fe am = inr (id, s').
Proof.
  intros Ht Hd Hbe Hba Hmg Hpr Had Hci Hst ? ? ? ? ? ? ? ?.
  unfold insert_apartment. rewrite Ht, Hd, Hbe, Hba, Hmg, Hpr, Had, Hci, Hst.
  rewrite (bind_truthy_not_null t), (bind_truthy_not_null be),
    (bind_truthy_not_null ba), (bind_truthy_not_null mg),
    (bind_truthy_not_null pr), (bind_truthy_not_null ad),
    (bind_truthy_not_null ci), (bind_truthy_not_null st) by done.
  eauto.
Qed.

Lemma find_app_fresh {A} (f : A -> bool) (l : list A) (x : A) :
  (forall y, y ∈ l -> f y = false) -> f x = true ->
  List.find f (l ++ [x]) = Some x.
Proof.
  induction l as [|y l IH]; simpl; intros Hl Hx; [by rewrite Hx|].
  rewrite (Hl y) by (by left). apply IH; [|done].
  intros z Hz. apply Hl. by right.
Qed.

(** The row just inserted is the one its rowid finds. *)
Lemma get_apartment_inserted s s' new :
  apartments s' = (apartments s ++ [new])%list ->
  a_id new = next_rowid (apartments_seq s) (a_id <$> apartments s) ->
  get_apartment s' (a_id new) = Some new.
Proof.
  intros Hs' Hid. unfold get_apartment. rewrite Hs'.
  apply find_app_fresh; [|apply Z.eqb_refl].
  intros y Hy. apply Z.eqb_neq. intros Heq.
  apply (next_rowid_fresh (apartments_seq s) (a_id <$> apartments s)).
  rewrite <- Hid, <- Heq. by apply list_elem_of_fmap_2.
Qed.


Ltac required_field := apply elem_of_requiredFields; auto 10.

(** The round trip the handlers are written for: a create whose required
    fields are truthy, whose description and required fields can be bound and
    which names no amenities answers 201, and reading the new id back gives
    a listing without amenities, images or videos. *)
Lemma create_then_read s now body :
  references_exist s ->
  (forall k, k ∈ requiredFields -> truthy (prop body k) = true) ->
  (forall k, k ∈ "description" :: requiredFields ->
     exists x, bind (prop body k) = inr x) ->
  body !! "amenities" = None ->
  exists created l,
    (createApartment s now body).1
    = mkResponse 201 (Listing (Some "Apartment created successfully") created)
    /\ getApartmentById (createApartment s now body).2 (a_id (row created))
       = json (Listing None l)
    /\ row l = row created
    /\ l_amenities l = [] /\ l_images l = Some [] /\ l_videos l = Some [].
Proof.
  intros [Himg Hvid] Htruthy Hbind Hnone.
  assert (forall k, k ∈ requiredFields ->
            exists x, bind (prop body k) = inr x) as Hbind'.
  { intros k Hk. apply Hbind. by right. }
  destruct (Hbind "description") as [d' Hd]; [by left|].
  destruct (Hbind' "title") as [t' Ht]; [required_field|].
  destruct (Hbind' "bedrooms") as [be' Hbe]; [required_field|].
  destruct (Hbind' "bathrooms") as [ba' Hba]; [required_field|].
  destruct (Hbind' "max_guests") as [mg' Hmg]; [required_field|].
  destruct (Hbind' "price_per_night") as [pr' Hpr]; [required_field|].
  destruct (Hbind' "address") as [ad' Had]; [required_field|].
  destruct (Hbind' "city") as [ci' Hci]; [required_field|].
  destruct (Hbind' "state") as [st' Hst]; [required_field|].
  unfold createApartment. rewrite required_guard.
  assert (existsb (fun k => negb (truthy (prop body k))) requiredFields
          = false) as ->.
  { apply not_true_is_false. intros (k & Hk & Hf)%required_guard_true.
    rewrite (Htruthy k Hk) in Hf. discriminate. }
  assert (prop_default body "amenities" (JArr []) = JArr []) as ->.
  { unfold prop_default, prop. by rewrite Hnone. }
  cbn [as_array].
  edestruct (insert_apartment_bindable s now) as (id & s' & Hins);
    [exact Ht|exact Hd|exact Hbe|exact Hba|exact Hmg|exact Hpr|exact Had
    |exact Hci|exact Hst|apply Htruthy; required_field..|].
  rewrite Hins.
  apply insert_apartment_inv in Hins
    as (Hid & Hi' & Hv' & _ & new & Hs' & Hnew & _ & _ & Ham).
  rewrite <- Hnew in Hid.
  pose proof (get_apartment_inserted s s' new Hs' Hid) as Hget.
  rewrite <- Hnew, Hget. exists (created_listing new). simpl.
  unfold getApartmentById. rewrite Hget.
  exists (with_media s' new). split; [done|]. split; [done|].
  split; [done|]. simpl.
  assert (a_id new ∉ a_id <$> apartments s) as Hfresh.
  { rewrite Hid. apply next_rowid_fresh. }
  split; [by rewrite Ham|]. split; f_equal.
  - unfold select_images_ordered. rewrite Hi', filter_none; [done|].
    intros i Hi. apply Z.eqb_neq. intros Heq.
    destruct (Himg i Hi) as (a & Ha & Haid). apply Hfresh.
    rewrite <- Heq, <- Haid. by apply list_elem_of_fmap_2.
  - unfold select_videos. rewrite Hv', filter_none; [done|].
    intros v Hv. apply Z.eqb_neq. intros Heq.
    destruct (Hvid v Hv) as (a & Ha & Haid). apply Hfresh.
    rewrite <- Heq, <- Haid. by apply list_elem_of_fmap_2.
Qed.

End Create.

(** C3, as stated, fails: a body that carries all eight required fields,
    none of them null, is refused with 400 when a number among them is 0. *)
Lemma create_refuses_zero_bedrooms :
  status (createApartment empty_store 0 studio).1 = 400
  /\ ~ (exists k, k ∈ requiredFields /\ missing_or_null studio k).
Proof.
  split; [reflexivity|].
  intros (k & Hk%elem_of_requiredFields & Hm).
  destruct Hk as [->|[->|[->|[->|[->|[->|[->| ->]]]]]]];
    destruct Hm as [Hm|Hm]; vm_compute in Hm; discriminate Hm.
Qed.

(** C3, amended.  The create operation answers 400 if and only if at least
    one of title, bedrooms, bathrooms, max_guests, price_per_night, address,
    city, state is falsy in the body: missing, null, false, 0 or the empty
    string.  A missing or null required field therefore always gives 400,
    and an answer of 400 leaves the store as it was. *)
Theorem create_validates_required_fields
    (s : store) (now : Z) (body : object) :
  (status (createApartment s now body).1 = 400
   <-> exists k, k ∈ requiredFields /\ truthy (prop body k) = false)
  /\ ((exists k, k ∈ requiredFields /\ missing_or_null body k) ->
      status (createApartment s now body).1 = 400)
  /\ (status (createApartment s now body).1 = 400 ->
      (createApartment s now body).2 = s).
Proof.
  split; [apply createApartment_400|]. split.
  - intros (k & Hk & Hm). apply createApartment_400.
    exists k. eauto using missing_or_null_falsy.
  - apply createApartment_400_unchanged.
Qed.


(** The same request with a description, be it null, is stored and reads
    back as the example expects. *)
Example create_example_with_description_reads_back :
  let out :=
    createApartment empty_store 0 (<["description" := JNull]> example_body) in
  status out.1 = 201
  /\ exists l, getApartmentById out.2 1 = json (Listing None l)
       /\ l_amenities l = [] /\ l_images l = Some [] /\ l_videos l = Some [].
Proof. split; [reflexivity|]. eexists. split; [reflexivity|]. done. Qed.

(** ** The update operation *)

Section Update.

Implicit Types (s : store) (r : apartment) (updates : object).








Lemma includes_elem_of l k : includes l k = true <-> k ∈ l.
Proof.
  unfold includes. rewrite existsb_exists, list_elem_of_In. split.
  - by intros (x & Hx & ->%String.eqb_eq).
  - intros Hk. exists k. by rewrite String.eqb_refl.
Qed.





Lemma get_apartment_None s id :
  (forall a, a ∈ apartments s -> a_id a <> id) -> get_apartment s id = None.
Proof.
  intros H. unfold get_apartment.
  destruct (List.find _ _) as [a|] eqn:E; [|done].
  apply find_some in E as [Hin Heq]. apply list_elem_of_In in Hin.
  apply Z.eqb_eq in Heq. by destruct (H a Hin).
Qed.

Lemma get_apartment_Some s id :
  (exists a, a ∈ apartments s /\ a_id a = id) ->
  exists a, get_apartment s id = Some a.
Proof.
  intros (a & Hin & Hid). unfold get_apartment.
  destruct (List.find _ _) as [a'|] eqn:E; [eauto|].
  apply list_elem_of_In in Hin.
  pose proof (find_none _ _ E a Hin) as Hn. simpl in Hn.
  apply Z.eqb_neq in Hn. done.
Qed.









End Update.


(** ** The delete operation *)

Section Delete.

Implicit Types (s : store).

Lemma find_filter_negb {A} (f : A -> bool) (l : list A) :
  List.find f (List.filter (fun x => negb (f x)) l) = None.
Proof.
  induction l as [|x l IH]; simpl; [done|].
  destruct (f x) eqn:E; simpl; [done|]. by rewrite E.
Qed.

Lemma get_apartment_deleted s id :
  get_apartment (delete_apartment s id) id = None.
Proof. unfold get_apartment, delete_apartment. simpl. apply find_filter_negb. Qed.

Lemma elem_of_filter_other {A} (key : A -> Z) (id : Z) (l : list A) (x : A) :
  x ∈ List.filter (fun y => negb (key y =? id)) l <-> x ∈ l /\ key x <> id.
Proof.
  rewrite elem_of_List_filter, negb_true_iff, Z.eqb_neq. done.
Qed.



End Delete.

(** C5.  A delete of an id that no listing has answers 404 and leaves the
    store as it was.  A delete of an existing listing answers 200 and leaves
    a store without that listing's row, without any image row and without any
    video row of that listing, and with every other row kept; this holds for
    every behaviour of the file system, a failed file deletion being logged
    and nothing more. *)
Theorem delete_cascades_whatever_the_disk
    (unlink : string -> option string) (path_join : list string -> string)
    (dirname : string) (s : store) (id : Z) :
  let out := deleteApartment unlink path_join dirname s id in
  let r := out.1.1 in
  let s' := out.1.2 in
  ((forall a, a ∈ apartments s -> a_id a <> id) -> status r = 404 /\ s' = s)
  /\ ((exists a, a ∈ apartments s /\ a_id a = id) ->
      status r = 200
      /\ s' = delete_apartment s id
      /\ get_apartment s' id = None
      /\ (forall a, a ∈ apartments s' <-> a ∈ apartments s /\ a_id a <> id)
      /\ (forall i, i ∈ apartment_images s' <->
            i ∈ apartment_images s /\ i_apartment_id i <> id)
      /\ (forall v, v ∈ apartment_videos s' <->
            v ∈ apartment_videos s /\ v_apartment_id v <> id)
      /\ (forall i message,
            i ∈ apartment_images s -> i_apartment_id i = id ->
            unlink (path_join [dirname; ".."; image_url i]) = Some message ->
            ("Could not delete " +:+ path_join [dirname; ".."; image_url i]
             +:+ ": " +:+ message) ∈ out.2)).
Proof.
  intros out r s'. subst out r s'. unfold deleteApartment. split.
  - intros Hnone%get_apartment_None. by rewrite Hnone.
  - intros [a Ha]%get_apartment_Some. rewrite Ha. simpl.
    split; [done|]. split; [done|].
    split; [apply get_apartment_deleted|].
    split; [intros x; apply (elem_of_filter_other a_id)|].
    split; [intros x; apply (elem_of_filter_other i_apartment_id)|].
    split; [intros x; apply (elem_of_filter_other v_apartment_id)|].
    intros i message Hi Hid Hfail.
    apply elem_of_app. left. apply list_elem_of_In, in_concat.
    exists (unlink_logged unlink path_join dirname (image_url i)). split.
    + apply list_elem_of_In. do 2 apply list_elem_of_fmap_2.
      unfold select_images. apply elem_of_List_filter.
      split; [done|]. by apply Z.eqb_eq.
    + unfold unlink_logged. rewrite Hfail. by left.
Qed.

(** ** Login *)

Section Login.

Variable bcrypt_compare : string -> string -> bool.
Variable jwt_sign : Z -> string -> result string.

Implicit Types (s : store) (body : object).

Lemma truthy_JStr u : u <> EmptyString -> truthy (JStr u) = true.
Proof. intros H. simpl. by destruct (String.eqb_spec u EmptyString). Qed.

Lemma find_admin_ex s (f : admin_user -> bool) :
  (exists a, a ∈ admin_users s /\ f a = true) ->
  exists a, List.find f (admin_users s) = Some a
            /\ a ∈ admin_users s /\ f a = true.
Proof.
  intros (a & Hin & Hf).
  destruct (List.find f (admin_users s)) as [a'|] eqn:E.
  - exists a'. apply find_some in E as [H1 H2].
    by rewrite list_elem_of_In.
  - apply list_elem_of_In in Hin.
    pose proof (find_none _ _ E a Hin). congruence.
Qed.

Lemma login_unknown_username s body u p :
  prop body "username" = JStr u -> prop body "password" = JStr p ->
  u <> EmptyString -> p <> EmptyString ->
  (forall a, a ∈ admin_users s -> username a <> u) ->
  login bcrypt_compare jwt_sign s body = invalid_credentials.
Proof.
  intros Hu Hp Hune Hpne Hnone. unfold login.
  rewrite Hu, Hp, !truthy_JStr by done. simpl.
  destruct (List.find _ _) as [a|] eqn:E; [|done].
  apply find_some in E as [Hin Heq]. apply list_elem_of_In in Hin.
  apply String.eqb_eq in Heq. by destruct (Hnone a Hin).
Qed.

Lemma login_wrong_password s body u p :
  prop body "username" = JStr u -> prop body "password" = JStr p ->
  u <> EmptyString -> p <> EmptyString ->
  (exists a, a ∈ admin_users s /\ username a = u) ->
  (forall a, a ∈ admin_users s -> username a = u ->
     bcrypt_compare p (password a) = false) ->
  login bcrypt_compare jwt_sign s body = invalid_credentials.
Proof.
  intros Hu Hp Hune Hpne Hex Hwrong. unfold login.
  rewrite Hu, Hp, !truthy_JStr by done. simpl.
  destruct (find_admin_ex s (fun a => String.eqb (username a) u))
    as (a & -> & Hin & Heq).
  { destruct Hex as (a & Hin & <-). exists a. by rewrite String.eqb_refl. }
  apply String.eqb_eq in Heq. by rewrite (Hwrong a Hin Heq).
Qed.

End Login.

(** C6, as stated, fails: of two login requests, one naming a user that does
    not exist and one naming the admin with a password that does not match,
    the first is answered 400 and the second 401 when the first carries an
    empty password. *)
Lemma login_empty_password_is_told_apart :
  let unknown_user := credentials (JStr "ghost") (JStr EmptyString) in
  let wrong_password := credentials (JStr "admin") (JStr "letmein") in
  (forall a, a ∈ admin_users one_admin -> username a <> "ghost")
  /\ (exists a, a ∈ admin_users one_admin /\ username a = "admin"
                /\ accepts_admin123 "letmein" (password a) = false)
  /\ status (login accepts_admin123 sign_constant one_admin unknown_user) = 400
  /\ status (login accepts_admin123 sign_constant one_admin wrong_password)
     = 401.
Proof.
  simpl. split; [|split; [|split; reflexivity]].
  - intros a Ha. apply list_elem_of_singleton in Ha as ->. discriminate.
  - eexists. split; [apply list_elem_of_singleton; reflexivity|]. done.
Qed.

(** C6, amended.  For every pair of login requests whose username and
    password are non-empty strings, one with a username that no admin has
    and one with the username of an admin and a password that does not match
    the stored hash, the two answers are the same: 401 with the error
    "Invalid credentials" and the message "Username or password is
    incorrect". *)
Theorem login_does_not_reveal_which_credential_failed
    (bcrypt_compare : string -> string -> bool)
    (jwt_sign : Z -> string -> result string)
    (s : store) (body1 body2 : object) (u1 p1 u2 p2 : string) :
  prop body1 "username" = JStr u1 -> prop body1 "password" = JStr p1 ->
  prop body2 "username" = JStr u2 -> prop body2 "password" = JStr p2 ->
  u1 <> EmptyString -> p1 <> EmptyString ->
  u2 <> EmptyString -> p2 <> EmptyString ->
  (forall a, a ∈ admin_users s -> username a <> u1) ->
  (exists a, a ∈ admin_users s /\ username a = u2) ->
  (forall a, a ∈ admin_users s -> username a = u2 ->
     bcrypt_compare p2 (password a) = false) ->
  login bcrypt_compare jwt_sign s body1 = login bcrypt_compare jwt_sign s body2
  /\ login bcrypt_compare jwt_sign s body1
     = mkResponse 401
         (Error "Invalid credentials" "Username or password is incorrect").
Proof.
  intros Hu1 Hp1 Hu2 Hp2 ? ? ? ? Hnone Hex Hwrong.
  rewrite (login_unknown_username _ _ s body1 u1 p1) by done.
  rewrite (login_wrong_password _ _ s body2 u2 p2) by done.
  done.
Qed.

(** Outside the amended statement: a password that is a number makes
    [bcrypt.compare] throw once an admin is found, so the answer is 500 for
    the name of an admin and 401 for any other name. *)
Example login_numeric_password :
  status (login accepts_admin123 sign_constant one_admin
            (credentials (JStr "ghost") (JNum 12345))) = 401
  /\ status (login accepts_admin123 sign_constant one_admin
               (credentials (JStr "admin") (JNum 12345))) = 500.
Proof. split; reflexivity. Qed.

(** ** The authentication middleware *)

Section Gate.

Variable jwt_verify : string -> verification.

Lemma authenticateAdmin_no_token authorization :
  bearer_token authorization = None ->
  refused (authenticateAdmin jwt_verify authorization) = Some 401.
Proof.
  unfold bearer_token, authenticateAdmin.
  destruct authorization as [h|]; [|done].
  destruct (truthy (JStr h)); [|done]. simpl negb. cbv iota.
  destruct (split_on " " h) as [|x [|t l]]; [done..|].
  simpl. by destruct (String.eqb t EmptyString).
Qed.

Lemma authenticateAdmin_token authorization t :
  bearer_token authorization = Some t ->
  authenticateAdmin jwt_verify authorization
  = match jwt_verify t with
    | Decoded id name => Next (mkIdentity id name)
    | Thrown name message =>
        if String.eqb name "JsonWebTokenError" then
          Answer (mkResponse 401 (Error "Invalid token" "Please login again"))
        else if String.eqb name "TokenExpiredError" then
          Answer (mkResponse 401
                    (Error "Token expired"
                       "Your session has expired. Please login again"))
        else Answer (mkResponse 500 (Error "Authentication failed" message))
    end.
Proof.
  unfold bearer_token, authenticateAdmin.
  destruct authorization as [h|]; [|done].
  destruct h as [|c h]; [done|].
  change (truthy (JStr (String c h))) with true. simpl negb. cbv iota.
  destruct (split_on " " (String c h)) as [|x [|t' l]]; [done..|].
  simpl. destruct (String.eqb t' EmptyString); [done|]. by intros [= ->].
Qed.

End Gate.

(** C8.  The middleware answers 401 exactly when no bearer token can be
    taken from the Authorization header (header absent or empty, second part
    missing or empty), or the verification of the token throws a
    JsonWebTokenError (malformed or otherwise invalid token) or a
    TokenExpiredError; it answers 500 exactly when the verification throws
    any other error; and it lets the request through exactly when the
    verification succeeds, with the decoded id and username as [req.admin],
    in which case the protected handler runs on that identity. *)
Theorem middleware_gates_protected_routes
    (jwt_verify : string -> verification) (authorization : option string) :
  let g := authenticateAdmin jwt_verify authorization in
  (refused g = Some 401 <->
     bearer_token authorization = None
     \/ exists t message, bearer_token authorization = Some t
          /\ (jwt_verify t = Thrown "JsonWebTokenError" message
              \/ jwt_verify t = Thrown "TokenExpiredError" message))
  /\ (refused g = Some 500 <->
        exists t name message, bearer_token authorization = Some t
          /\ jwt_verify t = Thrown name message
          /\ name <> "JsonWebTokenError" /\ name <> "TokenExpiredError")
  /\ (forall admin, g = Next admin <->
        exists t, bearer_token authorization = Some t
          /\ jwt_verify t = Decoded (admin_id admin) (admin_username admin))
  /\ (forall (A : Type) (handler : identity -> A) admin,
        g = Next admin ->
        protected jwt_verify authorization handler = inr (handler admin)).
Proof.
  intros g. subst g.
  destruct (bearer_token authorization) as [t|] eqn:Et.
  - rewrite (authenticateAdmin_token _ _ _ Et).
    destruct (jwt_verify t) as [id name|name message] eqn:Ev.
    + split; [|split; [|split]].
      * split; [discriminate|]. intros [[=]|(t' & m & [= <-] & [H|H])];
          congruence.
      * split; [discriminate|]. intros (t' & n & m & [= <-] & H & _).
        congruence.
      * intros [i n]. simpl. split.
        -- intros [= <- <-]. eauto.
        -- intros (t' & [= <-] & H). congruence.
      * intros A handler admin [= <-]. unfold protected.
        by rewrite (authenticateAdmin_token _ _ _ Et), Ev.
    + destruct (String.eqb_spec name "JsonWebTokenError") as [->|Hn1];
        [|destruct (String.eqb_spec name "TokenExpiredError") as [->|Hn2]].
      * split; [|split; [|split]]; simpl.
        -- split; [|done]. intros _. right. eauto.
        -- split; [discriminate|]. intros (t' & n & m & [= <-] & H & ? & ?).
           congruence.
        -- intros admin. split; [discriminate|].
           intros (t' & [= <-] & H). congruence.
        -- discriminate.
      * split; [|split; [|split]]; simpl.
        -- split; [|done]. intros _. right. eauto.
        -- split; [discriminate|]. intros (t' & n & m & [= <-] & H & ? & ?).
           congruence.
        -- intros admin. split; [discriminate|].
           intros (t' & [= <-] & H). congruence.
        -- discriminate.
      * split; [|split; [|split]]; simpl.
        -- split; [discriminate|].
           intros [[=]|(t' & m & [= <-] & [H|H])]; congruence.
        -- split; [|done]. intros _. exists t, name, message. done.
        -- intros admin. split; [discriminate|].
           intros (t' & [= <-] & H). congruence.
        -- discriminate.
  - pose proof (authenticateAdmin_no_token jwt_verify _ Et) as Hr.
    destruct (authenticateAdmin jwt_verify authorization) as [r|a] eqn:Eg;
      [|discriminate Hr].
    simpl in Hr. injection Hr as Hr. simpl. rewrite Hr.
    split; [|split; [|split]].
    + split; [auto|done].
    + split; [discriminate|]. by intros (t & n & m & [=] & _).
    + intros admin. split; [discriminate|]. by intros (t & [=] & _).
    + discriminate.
Qed.

(** ** The primary image *)

Section Primary.

Implicit Types (s : store) (i : image).

Lemma filter_length_le {A} (p q : A -> bool) (l : list A) :
  (forall x, x ∈ l -> p x = true -> q x = true) ->
  (length (List.filter p l) <= length (List.filter q l))%nat.
Proof.
  induction l as [|x l IH]; intros H; simpl; [lia|].
  assert (length (List.filter p l) <= length (List.filter q l))%nat as IH'.
  { apply IH. intros y Hy. apply H. by right. }
  destruct (p x) eqn:Ep.
  - rewrite (H x) by (done || by left). simpl. lia.
  - destruct (q x); simpl; lia.
Qed.

Lemma filter_fmap_length {A B} (p : B -> bool) (g : A -> B) (l : list A) :
  length (List.filter p (g <$> l))
  = length (List.filter (fun x => p (g x)) l).
Proof.
  induction l as [|x l IH]; csimpl; [done|].
  destruct (p (g x)); csimpl; by rewrite IH.
Qed.

Lemma NoDup_fmap_same {A B} (f : A -> B) (l : list A) (x y : A) :
  NoDup (f <$> l) -> x ∈ l -> y ∈ l -> f x = f y -> x = y.
Proof.
  induction l as [|a l IH]; simpl; intros Hnd Hx Hy Hxy.
  - by apply elem_of_nil in Hx.
  - apply NoDup_cons in Hnd as [Ha Hnd].
    apply elem_of_cons in Hx as [->|Hx]; apply elem_of_cons in Hy as [->|Hy].
    + done.
    + destruct Ha. rewrite Hxy. by apply list_elem_of_fmap_2.
    + destruct Ha. rewrite <- Hxy. by apply list_elem_of_fmap_2.
    + by apply IH.
Qed.

Lemma filter_key_length {A} (f : A -> Z) (k : Z) (l : list A) :
  NoDup (f <$> l) ->
  (length (List.filter (fun x => Z.eqb (f x) k) l) <= 1)%nat.
Proof.
  induction l as [|a l IH]; simpl; intros Hnd; [lia|].
  apply NoDup_cons in Hnd as [Ha Hnd].
  destruct (f a =? k) eqn:E; [|by apply IH].
  apply Z.eqb_eq in E. simpl.
  rewrite filter_none; [simpl; lia|].
  intros x Hx. apply Z.eqb_neq. intros Hk. destruct Ha.
  rewrite E, <- Hk. by apply list_elem_of_fmap_2.
Qed.

(** An INSERT of an image keeps the ids unique and adds no primary image. *)
Lemma insert_image_unique s listing url order :
  unique_image_ids s -> unique_image_ids (insert_image s listing url order).
Proof.
  unfold unique_image_ids, insert_image. simpl. intros Hnd.
  rewrite fmap_app. apply NoDup_app. split; [done|]. split.
  - intros x Hx ->%list_elem_of_singleton.
    by apply next_rowid_fresh in Hx.
  - apply NoDup_singleton.
Qed.

Lemma insert_image_primary_count s listing url order l :
  primary_count (insert_image s listing url order) l = primary_count s l.
Proof.
  unfold primary_count, insert_image. simpl.
  rewrite List.filter_app, length_app. simpl.
  rewrite andb_false_r. simpl. lia.
Qed.

Lemma insert_files_invariant files : forall s id currentOrder index s',
  unique_image_ids s -> at_most_one_primary s ->
  s' ∈ insert_files s id currentOrder index files ->
  unique_image_ids s' /\ at_most_one_primary s'.
Proof.
  induction files as [|f files IH]; simpl; intros s id c n s' Hu Hp Hin.
  - by apply elem_of_nil in Hin.
  - assert (unique_image_ids (insert_image s id (path f) (c + n))
            /\ at_most_one_primary (insert_image s id (path f) (c + n)))
      as [Hu1 Hp1].
    { split; [by apply insert_image_unique|].
      intros l. rewrite insert_image_primary_count. apply Hp. }
    apply elem_of_cons in Hin as [->|Hin]; [done|].
    by apply (IH (insert_image s id (path f) (c + n)) id c (n + 1)).
Qed.

(** The first UPDATE of set-primary: no image of the listing is primary any
    more, no listing gains a primary image. *)
Lemma clear_primary_unique s listing :
  unique_image_ids s -> unique_image_ids (clear_primary s listing).
Proof.
  unfold unique_image_ids, clear_primary. simpl.
  rewrite <- list_fmap_compose. intros H.
  erewrite list_fmap_ext; [exact H|].
  intros ? i _. simpl. by destruct (i_apartment_id i =? listing).
Qed.

Lemma clear_primary_count s listing l :
  (primary_count (clear_primary s listing) l <= primary_count s l)%nat.
Proof.
  unfold primary_count, clear_primary. simpl.
  rewrite filter_fmap_length. apply filter_length_le.
  intros i _. destruct (i_apartment_id i =? listing); [|done].
  simpl. by rewrite andb_false_r.
Qed.

Lemma clear_primary_cleared s listing i :
  i ∈ apartment_images (clear_primary s listing) ->
  i_apartment_id i = listing -> is_primary i = 0.
Proof.
  unfold clear_primary. simpl.
  intros (j & -> & _)%list_elem_of_fmap.
  destruct (i_apartment_id j =? listing) eqn:E; [done|].
  apply Z.eqb_neq in E. simpl. done.
Qed.

Lemma clear_primary_owner s listing imageId image i :
  unique_image_ids s ->
  get_image s imageId listing = Some image ->
  i ∈ apartment_images (clear_primary s listing) ->
  i_id i = imageId -> i_apartment_id i = listing.
Proof.
  unfold clear_primary, get_image. simpl.
  intros Hu Hg (j & -> & Hj)%list_elem_of_fmap Hid.
  apply find_some in Hg as [Hin [H1 H2]%andb_true_iff].
  apply list_elem_of_In in Hin.
  apply Z.eqb_eq in H1. apply Z.eqb_eq in H2.
  assert (i_id j = imageId) as Hjid.
  { by destruct (i_apartment_id j =? listing). }
  assert (j = image) as ->.
  { eapply (NoDup_fmap_same i_id); eauto. congruence. }
  by destruct (i_apartment_id image =? listing).
Qed.

(** The second UPDATE of set-primary. *)
Lemma mark_primary_unique s imageId :
  unique_image_ids s -> unique_image_ids (mark_primary s imageId).
Proof.
  unfold unique_image_ids, mark_primary. simpl.
  rewrite <- list_fmap_compose. intros H.
  erewrite list_fmap_ext; [exact H|].
  intros ? i _. simpl. by destruct (i_id i =? imageId).
Qed.

Lemma mark_primary_count s listing imageId :
  unique_image_ids s ->
  at_most_one_primary s ->
  (forall i, i ∈ apartment_images s -> i_apartment_id i = listing ->
     is_primary i = 0) ->
  (forall i, i ∈ apartment_images s -> i_id i = imageId ->
     i_apartment_id i = listing) ->
  at_most_one_primary (mark_primary s imageId).
Proof.
  intros Hu Hp Hcleared Howner l.
  unfold primary_count, mark_primary. simpl. rewrite filter_fmap_length.
  destruct (decide (l = listing)) as [->|Hne].
  - etrans; [|apply (filter_key_length i_id imageId _ Hu)].
    apply filter_length_le. intros i Hi.
    destruct (i_id i =? imageId); [done|].
    intros [H1 H2]%andb_true_iff.
    apply Z.eqb_eq in H1. apply Z.eqb_eq in H2.
    rewrite (Hcleared i Hi H1) in H2. discriminate.
  - etrans; [|apply (Hp l)]. unfold primary_count.
    apply filter_length_le. intros i Hi.
    destruct (i_id i =? imageId) eqn:E; [|done].
    apply Z.eqb_eq in E. simpl. rewrite (Howner i Hi E).
    intros [H1 _]%andb_true_iff. apply Z.eqb_eq in H1. congruence.
Qed.

Lemma setPrimaryImage_steps_invariant s listing imageId s' :
  unique_image_ids s -> at_most_one_primary s ->
  s' ∈ (setPrimaryImage_steps s listing imageId).2 ->
  unique_image_ids s' /\ at_most_one_primary s'.
Proof.
  intros Hu Hp. unfold setPrimaryImage_steps.
  destruct (get_image s imageId listing) as [image|] eqn:Eg; simpl;
    [|by intros ?%elem_of_nil].
  assert (unique_image_ids (clear_primary s listing)) as Hu1
    by by apply clear_primary_unique.
  assert (at_most_one_primary (clear_primary s listing)) as Hp1.
  { intros l. etrans; [apply clear_primary_count|apply Hp]. }
  intros [->|[->|[]%elem_of_nil]%elem_of_cons]%elem_of_cons; [done|].
  split; [by apply mark_primary_unique|].
  apply (mark_primary_count _ listing); [done..| |].
  - intros i. apply clear_primary_cleared.
  - intros i. by eapply clear_primary_owner.
Qed.

Lemma steps_invariant s q s' :
  unique_image_ids s -> at_most_one_primary s ->
  s' ∈ steps s q ->
  unique_image_ids s' /\ at_most_one_primary s'.
Proof.
  intros Hu Hp. destruct q as [id files|listing imageId]; simpl.
  - unfold uploadImages_steps.
    destruct (get_apartment s id); [|by intros ?%elem_of_nil].
    destruct (length files =? 0)%nat; simpl; [by intros ?%elem_of_nil|].
    by apply insert_files_invariant.
  - by apply setPrimaryImage_steps_invariant.
Qed.

Lemma last_elem_of {A} (l : list A) (d : A) :
  List.last l d = d \/ List.last l d ∈ l.
Proof.
  induction l as [|x [|y l] IH]; [by left|right; by left|].
  destruct IH as [IH|IH].
  - left. exact IH.
  - right. right. exact IH.
Qed.

(** The store a request leaves is the one after its last statement. *)
Lemma handle_last s q : handle s q = List.last (steps s q) s.
Proof.
  destruct q as [id files|listing imageId]; simpl.
  - unfold uploadImages. by destruct (uploadImages_steps s id files).
  - unfold setPrimaryImage.
    by destruct (setPrimaryImage_steps s listing imageId).
Qed.

Lemma handle_invariant s q :
  unique_image_ids s -> at_most_one_primary s ->
  unique_image_ids (handle s q) /\ at_most_one_primary (handle s q).
Proof.
  intros Hu Hp. rewrite handle_last.
  destruct (last_elem_of (steps s q) s) as [->|Hin]; [done|].
  by eapply steps_invariant.
Qed.

End Primary.

(** C2.  From a store in which no listing has more than one primary image,
    every store that a sequence of image uploads and set-primary requests
    passes through, statement by statement, has at most one primary image
    per listing: an upload inserts images whose primary flag is 0, and
    set-primary clears the flag on every image of the listing before it sets
    it on the target. *)
Theorem at_most_one_primary_image_at_every_point
    (qs : list media_request) (s : store) :
  unique_image_ids s ->
  at_most_one_primary s ->
  forall s', s' ∈ history s qs -> at_most_one_primary s'.
Proof.
  revert s. induction qs as [|q qs IH]; simpl; intros s Hu Hp s' Hin.
  - by apply elem_of_nil in Hin.
  - apply elem_of_app in Hin as [Hin|Hin].
    + by apply (steps_invariant s q s').
    + destruct (handle_invariant s q Hu Hp) as [Hu' Hp'].
      by apply (IH (handle s q)).
Qed.

(** ** Display order of uploaded images *)

Section Orders.

Implicit Types (s : store).

(** Where [(maxOrder?.max_order || -1) + 1] starts: one past the maximum,
    except that a maximum of 0 counts as none. *)
Lemma first_order_cases (m : Z) :
  first_order None = 0 /\ first_order (Some 0) = 0
  /\ (m <> 0 -> first_order (Some m) = m + 1).
Proof.
  split; [done|]. split; [done|]. intros Hm. unfold first_order. simpl.
  by destruct (Z.eqb_spec m 0).
Qed.

Lemma last_cons_default {A} (x d : A) (l : list A) :
  List.last (x :: l) d = List.last l x.
Proof.
  revert x d. induction l as [|y l IH]; intros x d; [done|].
  change (List.last (x :: y :: l) d) with (List.last (y :: l) d).
  rewrite (IH y d). symmetry. apply (IH y x).
Qed.

(** The loop hands out consecutive display orders from
    [currentOrder + index] on. *)
Lemma insert_files_orders files : forall s id currentOrder index,
  display_order <$>
    apartment_images (List.last (insert_files s id currentOrder index files) s)
  = ((display_order <$> apartment_images s)
     ++ ((fun k => currentOrder + index + Z.of_nat k)
           <$> seq 0 (length files)))%list.
Proof.
  induction files as [|f files IH]; intros s id c n.
  - simpl. by rewrite app_nil_r.
  - cbn [insert_files]. rewrite last_cons_default, IH.
    cbn [insert_image apartment_images length seq].
    rewrite fmap_app, <- app_assoc. f_equal. csimpl. f_equal; [lia|].
    rewrite <- seq_shift, <- list_fmap_compose.
    apply list_fmap_ext. intros ? k _. simpl. lia.
Qed.

Lemma uploadImages_orders s id files a :
  get_apartment s id = Some a -> files <> [] ->
  display_order <$> apartment_images (uploadImages s id files).2
  = ((display_order <$> apartment_images s)
     ++ ((fun k => first_order (max_order s id) + Z.of_nat k)
           <$> seq 0 (length files)))%list.
Proof.
  intros Ha Hf. unfold uploadImages, uploadImages_steps. rewrite Ha.
  destruct files as [|f files]; [done|]. cbn [length Nat.eqb]. cbv iota.
  cbn [snd]. rewrite insert_files_orders.
  f_equal. apply list_fmap_ext. intros ? k _. simpl. lia.
Qed.

End Orders.

(** C10.  A listing whose only image has display order 0 has 0 as its
    maximum; [(maxOrder?.max_order || -1) + 1] then starts the next upload at
    0 again instead of 1, so the new image shares the display order of the
    one that was there. *)
Theorem upload_after_order_zero_starts_at_zero_again :
  let upload :=
    uploadImages after_first_upload 1
      [one_file "https://res.cloudinary.com/b.jpg"] in
  status upload.1 = 200
  /\ display_order <$> apartment_images after_first_upload = [0]
  /\ max_order after_first_upload 1 = Some 0
  /\ first_order (max_order after_first_upload 1) = 0
  /\ display_order <$> apartment_images upload.2 = [0; 0].
Proof. vm_compute. repeat split. Qed.

(** ** Instances on concrete stores *)

Lemma reserved_store_flags : flags_boolean reserved_store.
Proof.
  intros a Ha. vm_compute in Ha.
  apply list_elem_of_singleton in Ha as ->. split; simpl; auto.
Qed.

Lemma list_unfiltered_for_bearer_available_otherwise_witness :
  flags_boolean reserved_store
  /\ (let r := getAllApartments reserved_store None in
      status r = 200
      /\ (bearer_header None ->
          forall l, l ∈ listed r <->
            exists a, a ∈ apartments reserved_store
                      /\ l = with_media reserved_store a)
      /\ (~ bearer_header None ->
          (forall l, l ∈ listed r <->
             exists a, a ∈ apartments reserved_store
                       /\ Boolean (available a) = true
                       /\ l = with_media reserved_store a)
          /\ (forall l, l ∈ listed r -> l_available l = true))).
Proof.
  split; [exact reserved_store_flags|].
  exact (list_unfiltered_for_bearer_available_otherwise
           reserved_store None reserved_store_flags).
Defined.

Lemma sample_store_unique_image_ids : unique_image_ids sample_store.
Proof.
  unfold unique_image_ids.
  change (i_id <$> apartment_images sample_store) with [1; 2; 3].
  apply (bool_decide_unpack _). by vm_compute.
Qed.

Lemma sample_store_one_primary : at_most_one_primary sample_store.
Proof.
  intros l. unfold primary_count.
  change (apartment_images sample_store)
    with [mkImage 1 1 "/uploads/images/sample1.jpg" 1 0;
          mkImage 2 1 "/uploads/images/sample2.jpg" 0 1;
          mkImage 3 1 "/uploads/images/sample3.jpg" 0 2].
  cbn [List.filter i_apartment_id is_primary].
  change (1 =? 1) with true. change (0 =? 1) with false.
  rewrite andb_true_r, andb_false_r. destruct (1 =? l); simpl; lia.
Qed.


Lemma at_most_one_primary_image_at_every_point_witness :
  unique_image_ids sample_store
  /\ at_most_one_primary sample_store
  /\ (forall s', s' ∈ history sample_store sample_requests ->
        at_most_one_primary s').
Proof.
  split; [exact sample_store_unique_image_ids|].
  split; [exact sample_store_one_primary|].
  exact (at_most_one_primary_image_at_every_point sample_requests sample_store
           sample_store_unique_image_ids sample_store_one_primary).
Defined.

Lemma one_admin_no_ghost :
  forall a, a ∈ admin_users one_admin -> username a <> "ghost".
Proof. intros a ->%list_elem_of_singleton. discriminate. Qed.

Lemma one_admin_has_admin :
  exists a, a ∈ admin_users one_admin /\ username a = "admin".
Proof. eexists. split; [by apply list_elem_of_singleton|done]. Qed.

Lemma one_admin_rejects_letmein :
  forall a, a ∈ admin_users one_admin -> username a = "admin" ->
    accepts_admin123 "letmein" (password a) = false.
Proof. done. Qed.

Lemma login_does_not_reveal_which_credential_failed_witness :
  let body1 := credentials (JStr "ghost") (JStr "admin123") in
  let body2 := credentials (JStr "admin") (JStr "letmein") in
  (forall a, a ∈ admin_users one_admin -> username a <> "ghost")
  /\ (exists a, a ∈ admin_users one_admin /\ username a = "admin")
  /\ (forall a, a ∈ admin_users one_admin -> username a = "admin" ->
        accepts_admin123 "letmein" (password a) = false)
  /\ login accepts_admin123 sign_constant one_admin body1
     = login accepts_admin123 sign_constant one_admin body2
  /\ login accepts_admin123 sign_constant one_admin body1
     = mkResponse 401
         (Error "Invalid credentials" "Username or password is incorrect").
Proof.
  intros body1 body2.
  split; [exact one_admin_no_ghost|].
  split; [exact one_admin_has_admin|].
  split; [exact one_admin_rejects_letmein|].
  apply (login_does_not_reveal_which_credential_failed
           accepts_admin123 sign_constant one_admin body1 body2
           "ghost" "admin123" "admin" "letmein");
    first [reflexivity | discriminate | exact one_admin_no_ghost
          | exact one_admin_has_admin | exact one_admin_rejects_letmein].
Defined.

(** * Properties of the rest of the application *)

(** ** Statistics *)

Section StatisticsFacts.

Implicit Types (s : store).

Lemma filter_cover_length {A} (p q : A -> bool) (l : list A) :
  (forall x, x ∈ l -> p x = negb (q x)) ->
  (length (List.filter p l) + length (List.filter q l) = length l)%nat.
Proof.
  induction l as [|x l IH]; simpl; intros H; [lia|].
  assert (length (List.filter p l) + length (List.filter q l)
          = length l)%nat as IH'.
  { apply IH. intros y Hy. apply H. by right. }
  rewrite (H x (list_elem_of_here x l)).
  destruct (q x); simpl; lia.
Qed.

Lemma filter_length_bound {A} (p : A -> bool) (l : list A) :
  (length (List.filter p l) <= length l)%nat.
Proof. induction l as [|x l IH]; simpl; [lia|]. destruct (p x); simpl; lia. Qed.

End StatisticsFacts.

(** X1.  On a store whose availability flags are 0 or 1, the statistics
    split the listings: available plus reserved is the total; the featured
    count never exceeds the total. *)
Theorem statistics_split_the_listings (s : store) :
  flags_boolean s ->
  availableApartments (getStatistics s) + reservedApartments (getStatistics s)
  = totalApartments (getStatistics s)
  /\ 0 <= featuredApartments (getStatistics s) <= totalApartments (getStatistics s).
Proof.
  intros Hf. unfold getStatistics, count_apartments. simpl. split.
  - rewrite <- Nat2Z.inj_add. f_equal. apply filter_cover_length.
    intros a Ha. destruct (Hf a Ha) as [[H|H] _]; by rewrite H.
  - pose proof (filter_length_bound (fun a => featured a =? 1) (apartments s)).
    lia.
Qed.

Lemma statistics_split_the_listings_witness :
  flags_boolean reserved_store
  /\ (availableApartments (getStatistics reserved_store)
      + reservedApartments (getStatistics reserved_store)
      = totalApartments (getStatistics reserved_store)
      /\ 0 <= featuredApartments (getStatistics reserved_store)
           <= totalApartments (getStatistics reserved_store)).
Proof.
  split; [exact reserved_store_flags|].
  exact (statistics_split_the_listings reserved_store reserved_store_flags).
Defined.

(** X2.  The statistics agree with the list operation: the available count
    is the number of listings a visitor is shown, the total is the number an
    admin header is shown, and each answer's [count] is the length of its
    list. *)
Theorem statistics_agree_with_the_lists (s : store) (h : string) :
  startsWith h "Bearer" = true ->
  availableApartments (getStatistics s)
  = Z.of_nat (length (listed (getAllApartments s None)))
  /\ totalApartments (getStatistics s)
     = Z.of_nat (length (listed (getAllApartments s (Some h))))
  /\ body (getAllApartments s None)
     = ListingList (availableApartments (getStatistics s))
         (listed (getAllApartments s None))
  /\ body (getAllApartments s (Some h))
     = ListingList (totalApartments (getStatistics s))
         (listed (getAllApartments s (Some h))).
Proof.
  intros Hh.
  assert (isAdmin (Some h) = true) as Ha.
  { apply isAdmin_bearer. exists h. done. }
  unfold getAllApartments. rewrite Ha. change (isAdmin None) with false.
  unfold listed, getStatistics, count_apartments. simpl.
  rewrite !length_fmap.
  unfold select_available_apartments, select_all_apartments.
  rewrite !(Permutation_length (merge_sort_Permutation _ _)). done.
Qed.

Lemma statistics_agree_with_the_lists_witness :
  startsWith "Bearer anything" "Bearer" = true
  /\ (availableApartments (getStatistics reserved_store)
      = Z.of_nat (length (listed (getAllApartments reserved_store None)))
      /\ totalApartments (getStatistics reserved_store)
         = Z.of_nat
             (length (listed (getAllApartments reserved_store
                                (Some "Bearer anything"))))
      /\ body (getAllApartments reserved_store None)
         = ListingList (availableApartments (getStatistics reserved_store))
             (listed (getAllApartments reserved_store None))
      /\ body (getAllApartments reserved_store (Some "Bearer anything"))
         = ListingList (totalApartments (getStatistics reserved_store))
             (listed (getAllApartments reserved_store
                        (Some "Bearer anything")))).
Proof.
  split; [reflexivity|].
  exact (statistics_agree_with_the_lists reserved_store "Bearer anything"
           eq_refl).
Defined.

(** ** Videos *)

Section Videos.

Implicit Types (s : store).

Lemma select_videos_insert s id url listing :
  select_videos (insert_video s id url) listing
  = (select_videos s listing
     ++ if id =? listing
        then [mkVideo
                (next_rowid (apartment_videos_seq s)
                   (v_id <$> apartment_videos s)) id url]
        else [])%list.
Proof.
  unfold select_videos, insert_video. simpl.
  rewrite List.filter_app. simpl. by destruct (id =? listing).
Qed.

Lemma get_apartment_insert_video s id url n :
  get_apartment (insert_video s id url) n = get_apartment s n.
Proof. done. Qed.

End Videos.

(** X3.  A video upload answers 404 for an id that no listing has and 400
    when no file arrived, and leaves the store as it was in both cases.
    Otherwise it answers 200 and adds one row to the videos, with a rowid the
    table does not hold, the listing's id and the URL of the file; listings
    and images are untouched, and reading the listing afterwards shows its
    earlier videos followed by the new one. *)
Theorem video_upload_adds_one_row (s : store) (id : Z) (upload : option file) :
  let out := uploadVideo s id upload in
  ((forall a, a ∈ apartments s -> a_id a <> id) ->
   out = (Plain (not_found id), s))
  /\ ((exists a, a ∈ apartments s /\ a_id a = id) ->
      upload = None ->
      answer_status out.1 = 400 /\ out.2 = s)
  /\ (forall f, (exists a, a ∈ apartments s /\ a_id a = id) ->
        upload = Some f ->
        exists v,
          out.1 = VideoUploaded "Video uploaded successfully to Cloudinary" f
          /\ apartment_videos out.2 = (apartment_videos s ++ [v])%list
          /\ v_apartment_id v = id /\ video_url v = path f
          /\ (v_id v ∉ v_id <$> apartment_videos s)
          /\ apartments out.2 = apartments s
          /\ apartment_images out.2 = apartment_images s
          /\ exists l, getApartmentById out.2 id = json (Listing None l)
               /\ l_videos l = Some (select_videos s id ++ [v])%list).
Proof.
  intros out. subst out. unfold uploadVideo. split; [|split].
  - intros Hnone%get_apartment_None. by rewrite Hnone.
  - intros [a Ha]%get_apartment_Some ->. by rewrite Ha.
  - intros f [a Ha]%get_apartment_Some ->. rewrite Ha. simpl.
    eexists. split; [done|]. split; [done|]. split; [done|].
    split; [done|]. split; [apply next_rowid_fresh|].
    split; [done|]. split; [done|].
    unfold getApartmentById. rewrite get_apartment_insert_video, Ha.
    eexists. split; [done|]. simpl.
    rewrite select_videos_insert.
    apply find_some in Ha as [_ Ha]. simpl in Ha.
    apply Z.eqb_eq in Ha. rewrite Ha, Z.eqb_refl. done.
Qed.

(** ** Deleting an image *)

Section DeleteImage.

Implicit Types (s : store).

Lemma get_image_None s imageId apartmentId :
  (forall i, i ∈ apartment_images s ->
     ~ (i_id i = imageId /\ i_apartment_id i = apartmentId)) ->
  get_image s imageId apartmentId = None.
Proof.
  intros H. unfold get_image.
  destruct (List.find _ _) as [i|] eqn:E; [|done].
  apply find_some in E as [Hin [H1 H2]%andb_true_iff].
  apply list_elem_of_In in Hin.
  apply Z.eqb_eq in H1. apply Z.eqb_eq in H2. by destruct (H i Hin).
Qed.

Lemma get_image_Some s imageId apartmentId :
  (exists i, i ∈ apartment_images s
             /\ i_id i = imageId /\ i_apartment_id i = apartmentId) ->
  exists i, get_image s imageId apartmentId = Some i
            /\ i ∈ apartment_images s
            /\ i_id i = imageId /\ i_apartment_id i = apartmentId.
Proof.
  intros (i & Hin & H1 & H2). unfold get_image.
  destruct (List.find _ _) as [j|] eqn:E.
  - exists j. apply find_some in E as [Hj [H3 H4]%andb_true_iff].
    apply list_elem_of_In in Hj.
    apply Z.eqb_eq in H3. apply Z.eqb_eq in H4. done.
  - apply list_elem_of_In in Hin.
    pose proof (find_none _ _ E i Hin) as Hn. simpl in Hn.
    rewrite H1, H2, !Z.eqb_refl in Hn. discriminate.
Qed.

End DeleteImage.

(** X4.  Deleting an image answers 404 and changes nothing unless the
    listing named in the path has an image with that id.  When it has one,
    the answer is 200 and the rows with that id leave the images, every
    other row and every other table staying as it was, whatever Cloudinary
    does: a failed remote deletion only writes a line to the console. *)
Theorem image_delete_does_not_wait_for_cloudinary
    (destroy : string -> option string) (s : store) (apartmentId imageId : Z) :
  let out := deleteImage destroy s apartmentId imageId in
  ((forall i, i ∈ apartment_images s ->
      ~ (i_id i = imageId /\ i_apartment_id i = apartmentId)) ->
   out = (image_not_found, s, []))
  /\ ((exists i, i ∈ apartment_images s
                 /\ i_id i = imageId /\ i_apartment_id i = apartmentId) ->
      status out.1.1 = 200
      /\ (forall i, i ∈ apartment_images out.1.2 <->
            i ∈ apartment_images s /\ i_id i <> imageId)
      /\ apartments out.1.2 = apartments s
      /\ apartment_videos out.1.2 = apartment_videos s
      /\ admin_users out.1.2 = admin_users s
      /\ out.1.2
         = (deleteImage (fun _ => None) s apartmentId imageId).1.2
      /\ (forall i message,
            get_image s imageId apartmentId = Some i ->
            destroy (public_id (image_url i)) = Some message ->
            out.2 = ["Could not delete from Cloudinary: " +:+ message])).
Proof.
  intros out. subst out. unfold deleteImage. split.
  - intros Hnone%get_image_None. by rewrite Hnone.
  - intros (i & Hi & _)%get_image_Some. rewrite Hi. simpl.
    split; [done|].
    split; [intros x; apply (elem_of_filter_other i_id)|].
    split; [done|]. split; [done|]. split; [done|]. split; [done|].
    intros j message [= <-] Hd. by rewrite Hd.
Qed.

(** ** The public id of a stored URL *)

Section Split.

Lemma split_on_nonempty sep s : split_on sep s <> [].
Proof.
  destruct s as [|c s]; simpl; [done|].
  destruct (Ascii.eqb c sep); [done|]. by destruct (split_on sep s).
Qed.

(** Splitting around a separator splits both sides. *)
Lemma split_on_app sep x y :
  split_on sep (x +:+ String sep y)
  = (split_on sep x ++ split_on sep y)%list.
Proof.
  induction x as [|c x IH]; simpl.
  - by rewrite Ascii.eqb_refl.
  - destruct (Ascii.eqb c sep); [by rewrite IH|].
    rewrite IH. pose proof (split_on_nonempty sep x).
    by destruct (split_on sep x).
Qed.

Lemma split_on_absent sep s : contains sep s = false -> split_on sep s = [s].
Proof.
  induction s as [|c s IH]; simpl; [done|].
  intros [H1 H2]%orb_false_iff. by rewrite H1, IH.
Qed.

Lemma from_end_snoc l x : from_end (l ++ [x]) 1 = x.
Proof. unfold from_end. by rewrite rev_app_distr. Qed.

Lemma from_end_snoc2 l x y : from_end (l ++ [x; y]) 2 = x.
Proof. unfold from_end. by rewrite rev_app_distr. Qed.

End Split.

(** X5.  For a stored URL that ends in /folder/name.ext, the public id sent
    to Cloudinary is folder/name: only the last folder of the path is kept,
    and the name is cut at its first dot. *)
Theorem public_id_keeps_last_folder_and_stem
    (front folder name ext : string) :
  contains "/" folder = false -> contains "/" name = false ->
  contains "/" ext = false -> contains "." name = false ->
  public_id (front +:+ "/" +:+ folder +:+ "/" +:+ name +:+ "." +:+ ext)
  = folder +:+ "/" +:+ name.
Proof.
  intros Hf Hn He Hd. unfold public_id.
  change ("/" +:+ folder +:+ "/" +:+ name +:+ "." +:+ ext)
    with (String "/" (folder +:+ String "/" (name +:+ String "." ext))).
  assert (contains "/" (name +:+ String "." ext) = false) as Hne.
  { clear Hd. induction name as [|c name IH]; simpl in *.
    - done.
    - apply orb_false_iff in Hn as [-> Hn]. by apply IH. }
  rewrite !split_on_app, (split_on_absent "/" folder Hf),
    (split_on_absent "/" _ Hne).
  change ([folder] ++ [name +:+ String "." ext])%list
    with [folder; name +:+ String "." ext].
  rewrite from_end_snoc2.
  replace (split_on "/" front ++ [folder; name +:+ String "." ext])%list
    with ((split_on "/" front ++ [folder])
          ++ [name +:+ String "." ext])%list
    by by rewrite <- app_assoc.
  rewrite from_end_snoc, split_on_app, (split_on_absent "." name Hd). done.
Qed.

Lemma public_id_keeps_last_folder_and_stem_witness :
  contains "/" "images" = false /\ contains "/" "flat-12" = false
  /\ contains "/" "jpg" = false /\ contains "." "flat-12" = false
  /\ public_id
       ("https://res.cloudinary.com/demo/image/upload/v17/khael-apartments"
        +:+ "/" +:+ "images" +:+ "/" +:+ "flat-12" +:+ "." +:+ "jpg")
     = "images" +:+ "/" +:+ "flat-12".
Proof.
  repeat (split; [reflexivity|]).
  exact (public_id_keeps_last_folder_and_stem
           "https://res.cloudinary.com/demo/image/upload/v17/khael-apartments"
           "images" "flat-12" "jpg" eq_refl eq_refl eq_refl eq_refl).
Defined.

(** ** Setting the primary image *)

Section SetPrimary.

Implicit Types (s : store) (i : image).

Lemma set_primary_images s apartmentId imageId :
  apartment_images (mark_primary (clear_primary s apartmentId) imageId)
  = repaint apartmentId imageId <$> apartment_images s.
Proof.
  unfold mark_primary, clear_primary. simpl.
  by rewrite <- list_fmap_compose.
Qed.

Lemma repaint_unflagged a n i : unflagged (repaint a n i) = unflagged i.
Proof.
  unfold repaint, unflagged.
  destruct (i_apartment_id i =? a); simpl;
    destruct (i_id i =? n); done.
Qed.


Lemma filter_ext_in {A} (p q : A -> bool) (l : list A) :
  (forall x, x ∈ l -> p x = q x) -> List.filter p l = List.filter q l.
Proof.
  induction l as [|x l IH]; simpl; intros H; [done|].
  rewrite (H x) by (by left). rewrite IH; [done|].
  intros y Hy. apply H. by right.
Qed.

Lemma NoDup_fmap_List_filter {A B} (f : A -> B) (p : A -> bool) (l : list A) :
  NoDup (f <$> l) -> NoDup (f <$> List.filter p l).
Proof.
  induction l as [|x l IH]; simpl; intros Hnd; [done|].
  apply NoDup_cons in Hnd as [Hx Hnd].
  destruct (p x); [|by apply IH]. csimpl. apply NoDup_cons. split; [|by apply IH].
  intros (y & Hy & Hin)%list_elem_of_fmap. apply Hx.
  rewrite Hy. apply list_elem_of_fmap_2.
  by apply elem_of_List_filter in Hin as [? _].
Qed.

(** After the two UPDATEs, the images of the listing that carry the flag
    are exactly those with the target id, and every flag of the listing is
    0 or 1. *)
Lemma set_primary_flags s apartmentId imageId img x :
  unique_image_ids s ->
  img ∈ apartment_images s -> i_id img = imageId ->
  i_apartment_id img = apartmentId ->
  x ∈ apartment_images (mark_primary (clear_primary s apartmentId) imageId) ->
  i_apartment_id x = apartmentId ->
  (is_primary x = 1 <-> i_id x = imageId)
  /\ (is_primary x = 0 \/ is_primary x = 1).
Proof.
  intros Hu Himg Hid Hapt. rewrite set_primary_images.
  intros (y & -> & Hy)%list_elem_of_fmap. unfold repaint.
  destruct (Z.eqb_spec (i_apartment_id y) apartmentId) as [Ea|Ea]; simpl;
    destruct (Z.eqb_spec (i_id y) imageId) as [En|En]; simpl; intros Hx.
  - split; [done|auto].
  - split; [split; [discriminate|done]|auto].
  - destruct Ea. assert (y = img) as -> by
      (eapply (NoDup_fmap_same i_id); eauto; congruence). done.
  - done.
Qed.

Lemma set_primary_target s apartmentId imageId img :
  img ∈ apartment_images s -> i_id img = imageId ->
  i_apartment_id img = apartmentId ->
  set_is_primary 1 img
  ∈ apartment_images (mark_primary (clear_primary s apartmentId) imageId).
Proof.
  intros Himg Hid Hapt. rewrite set_primary_images.
  apply list_elem_of_fmap. exists img. split; [|done].
  unfold repaint. rewrite Hapt, Z.eqb_refl. simpl. by rewrite Hid, Z.eqb_refl.
Qed.

Lemma setPrimaryImage_found s apartmentId imageId img :
  get_image s imageId apartmentId = Some img ->
  setPrimaryImage s apartmentId imageId
  = (json (Message "Primary image updated successfully"),
     mark_primary (clear_primary s apartmentId) imageId).
Proof.
  intros H. unfold setPrimaryImage, setPrimaryImage_steps. by rewrite H.
Qed.

End SetPrimary.

(** X6.  Setting the primary image of a listing that has the image answers
    200, changes nothing of any image but its flag, leaves the images of
    other listings as they were, and makes the target the one primary image
    of the listing: its images carry flag 1 exactly when they are the target,
    flag 0 otherwise. *)
Theorem set_primary_makes_the_target_the_only_primary
    (s : store) (apartmentId imageId : Z) :
  unique_image_ids s ->
  (exists i, i ∈ apartment_images s
             /\ i_id i = imageId /\ i_apartment_id i = apartmentId) ->
  let out := setPrimaryImage s apartmentId imageId in
  status out.1 = 200
  /\ unflagged <$> apartment_images out.2 = unflagged <$> apartment_images s
  /\ (forall x, x ∈ apartment_images out.2 ->
        i_apartment_id x = apartmentId ->
        (is_primary x = 1 <-> i_id x = imageId)
        /\ (is_primary x = 0 \/ is_primary x = 1))
  /\ primary_count out.2 apartmentId = 1%nat
  /\ (forall x, i_apartment_id x <> apartmentId ->
        x ∈ apartment_images out.2 <-> x ∈ apartment_images s)
  /\ apartments out.2 = apartments s
  /\ apartment_videos out.2 = apartment_videos s.
Proof.
  intros Hu Hex out. subst out.
  destruct (get_image_Some s imageId apartmentId Hex)
    as (img & Hg & Himg & Hid & Hapt).
  rewrite (setPrimaryImage_found _ _ _ _ Hg). cbn [fst snd].
  split; [done|]. split.
  { rewrite set_primary_images, <- list_fmap_compose. apply list_fmap_ext.
    intros ? x _. apply repaint_unflagged. }
  split.
  { intros x Hx. apply (set_primary_flags s apartmentId imageId img); auto. }
  split.
  { unfold primary_count.
    pose proof (fun x Hx Ha =>
      set_primary_flags s apartmentId imageId img x Hu Himg Hid Hapt Hx Ha)
      as Hflags.
    pose proof (set_primary_target s apartmentId imageId img Himg Hid Hapt)
      as Ht.
    pose proof (mark_primary_unique _ imageId
                  (clear_primary_unique s apartmentId Hu)) as Hu'.
    set (imgs := apartment_images
                   (mark_primary (clear_primary s apartmentId) imageId)) in *.
    rewrite (filter_ext_in _
               (fun x => (i_apartment_id x =? apartmentId)
                         && (i_id x =? imageId)) imgs).
    - apply Nat.le_antisymm.
      + etrans; [|apply (filter_key_length i_id imageId imgs Hu')].
        apply filter_length_le. by intros x _ [_ ?]%andb_true_iff.
      + assert (set_is_primary 1 img
                ∈ List.filter
                    (fun x => (i_apartment_id x =? apartmentId)
                              && (i_id x =? imageId)) imgs) as Hin.
        { apply elem_of_List_filter. split; [done|]. simpl.
          by rewrite Hapt, Hid, !Z.eqb_refl. }
        destruct (List.filter _ imgs); [by apply elem_of_nil in Hin|].
        simpl. lia.
    - intros x Hx. destruct (i_apartment_id x =? apartmentId) eqn:Ea; [|done].
      apply Z.eqb_eq in Ea. destruct (Hflags x Hx Ea) as [Hiff _]. simpl.
      destruct (i_id x =? imageId) eqn:En.
      + apply Z.eqb_eq in En. apply Z.eqb_eq. by apply Hiff.
      + apply Z.eqb_neq in En. apply Z.eqb_neq. by rewrite Hiff. }
  split; [|done].
  intros x Hx. rewrite set_primary_images, list_elem_of_fmap. split.
  - intros (y & -> & Hy). revert Hx. unfold repaint.
    destruct (i_apartment_id y =? apartmentId) eqn:Ea; simpl.
    + intros Hx. apply Z.eqb_eq in Ea.
      by destruct (i_id y =? imageId).
    + destruct (i_id y =? imageId) eqn:En; [|done].
      apply Z.eqb_eq in En. apply Z.eqb_neq in Ea. destruct Ea.
      assert (y = img) as -> by
        (eapply (NoDup_fmap_same i_id); eauto; congruence). done.
  - intros Hin. exists x. split; [|done]. unfold repaint.
    apply Z.eqb_neq in Hx as Hx'. rewrite Hx'.
    destruct (i_id x =? imageId) eqn:En; [|done].
    apply Z.eqb_eq in En.
    assert (x = img) as -> by
      (eapply (NoDup_fmap_same i_id); eauto; congruence). done.
Qed.

Lemma set_primary_makes_the_target_the_only_primary_witness :
  unique_image_ids sample_store
  /\ (exists i, i ∈ apartment_images sample_store
                /\ i_id i = 3 /\ i_apartment_id i = 1)
  /\ (let out := setPrimaryImage sample_store 1 3 in
      status out.1 = 200
      /\ unflagged <$> apartment_images out.2
         = unflagged <$> apartment_images sample_store
      /\ (forall x, x ∈ apartment_images out.2 ->
            i_apartment_id x = 1 ->
            (is_primary x = 1 <-> i_id x = 3)
            /\ (is_primary x = 0 \/ is_primary x = 1))
      /\ primary_count out.2 1 = 1%nat
      /\ (forall x, i_apartment_id x <> 1 ->
            x ∈ apartment_images out.2 <-> x ∈ apartment_images sample_store)
      /\ apartments out.2 = apartments sample_store
      /\ apartment_videos out.2 = apartment_videos sample_store).
Proof.
  assert (exists i, i ∈ apartment_images sample_store
                    /\ i_id i = 3 /\ i_apartment_id i = 1) as Hex.
  { exists (mkImage 3 1 "/uploads/images/sample3.jpg" 0 2).
    split; [|done]. do 2 right. left. }
  split; [exact sample_store_unique_image_ids|]. split; [exact Hex|].
  exact (set_primary_makes_the_target_the_only_primary sample_store 1 3
           sample_store_unique_image_ids Hex).
Defined.

Section ReadAfterSetPrimary.

Implicit Types (s : store) (i : image).

Lemma select_images_ordered_unique s id :
  unique_image_ids s -> NoDup (i_id <$> select_images_ordered s id).
Proof.
  intros Hu. unfold select_images_ordered.
  rewrite merge_sort_Permutation. by apply NoDup_fmap_List_filter.
Qed.

(** In a list sorted primary-first whose flags are 0 or 1 and which holds a
    flagged image, the head carries the flag. *)
Lemma ordered_images_head (l : list image) (t : image) :
  ordered_images l -> t ∈ l -> is_primary t = 1 ->
  (forall x, x ∈ l -> is_primary x = 0 \/ is_primary x = 1) ->
  exists h rest, l = h :: rest /\ is_primary h = 1.
Proof.
  intros [Hfirst _] Ht Hp Hflags.
  destruct l as [|h rest]; [by apply elem_of_nil in Ht|].
  exists h, rest. split; [done|].
  destruct (Hflags h (list_elem_of_here h rest)) as [H0|]; [exfalso|done].
  apply list_elem_of_lookup in Ht as [q Hq].
  pose proof (Hfirst q 0%nat t h Hq eq_refl Hp H0). lia.
Qed.


End ReadAfterSetPrimary.

(** X7.  After a successful set-primary, reading the listing shows the
    target image first, and it is the only image of the list that carries
    the primary flag. *)
Theorem set_primary_then_read_shows_the_target_first
    (s : store) (apartmentId imageId : Z) :
  unique_image_ids s ->
  (exists a, a ∈ apartments s /\ a_id a = apartmentId) ->
  (exists i, i ∈ apartment_images s
             /\ i_id i = imageId /\ i_apartment_id i = apartmentId) ->
  exists l target rest,
    getApartmentById (setPrimaryImage s apartmentId imageId).2 apartmentId
    = json (Listing None l)
    /\ l_images l = Some (target :: rest)
    /\ i_id target = imageId /\ is_primary target = 1
    /\ forall x, x ∈ rest -> is_primary x = 0.
Proof.
  intros Hu [a Ha]%get_apartment_Some Hex.
  destruct (get_image_Some s imageId apartmentId Hex)
    as (img & Hg & Himg & Hid & Hapt).
  rewrite (setPrimaryImage_found _ _ _ _ Hg). cbn [snd].
  set (s' := mark_primary (clear_primary s apartmentId) imageId).
  assert (get_apartment s' apartmentId = Some a) as Ha' by exact Ha.
  unfold getApartmentById. rewrite Ha'.
  assert (a_id a = apartmentId) as Haid.
  { apply find_some in Ha as [_ H]. by apply Z.eqb_eq in H. }
  pose proof (fun x Hx Hl =>
    set_primary_flags s apartmentId imageId img x Hu Himg Hid Hapt Hx Hl)
    as Hflags.
  pose proof (set_primary_target s apartmentId imageId img Himg Hid Hapt)
    as Ht.
  pose proof (mark_primary_unique _ imageId
                (clear_primary_unique s apartmentId Hu)) as Hu'.
  fold s' in Hflags, Ht, Hu'.
  pose proof (select_images_ordered_unique s' apartmentId Hu') as Hnd.
  pose proof (select_images_ordered_sorted s' apartmentId) as Hsorted.
  assert (forall x, x ∈ select_images_ordered s' apartmentId ->
            (is_primary x = 1 <-> i_id x = imageId)
            /\ (is_primary x = 0 \/ is_primary x = 1)) as Hin.
  { intros x [Hx Hl]%elem_of_select_images_ordered. by apply Hflags. }
  destruct (ordered_images_head (select_images_ordered s' apartmentId)
              (set_is_primary 1 img)) as (h & rest & Hl & Hh); auto.
  { apply elem_of_select_images_ordered. by split. }
  { intros x Hx. by apply Hin. }
  exists (with_media s' a), h, rest. split; [done|]. simpl. rewrite Haid, Hl.
  split; [done|].
  rewrite Hl in Hin, Hnd. csimpl in Hnd.
  apply NoDup_cons in Hnd as [Hfresh _].
  assert (i_id h = imageId) as Hhid.
  { by apply (Hin h (list_elem_of_here h rest)). }
  split; [done|]. split; [done|].
  intros x Hx. destruct (Hin x) as [Hiff [H0|H1]]; [by right|done|].
  destruct Hfresh. rewrite Hhid, <- (proj1 Hiff H1).
  by apply list_elem_of_fmap_2.
Qed.

Lemma set_primary_then_read_shows_the_target_first_witness :
  unique_image_ids sample_store
  /\ (exists a, a ∈ apartments sample_store /\ a_id a = 1)
  /\ (exists i, i ∈ apartment_images sample_store
                /\ i_id i = 3 /\ i_apartment_id i = 1)
  /\ (exists l target rest,
        getApartmentById (setPrimaryImage sample_store 1 3).2 1
        = json (Listing None l)
        /\ l_images l = Some (target :: rest)
        /\ i_id target = 3 /\ is_primary target = 1
        /\ forall x, x ∈ rest -> is_primary x = 0).
Proof.
  assert (exists a, a ∈ apartments sample_store /\ a_id a = 1) as Ha.
  { eexists. split; [left|reflexivity]. }
  assert (exists i, i ∈ apartment_images sample_store
                    /\ i_id i = 3 /\ i_apartment_id i = 1) as Hex.
  { exists (mkImage 3 1 "/uploads/images/sample3.jpg" 0 2).
    split; [|done]. do 2 right. left. }
  split; [exact sample_store_unique_image_ids|].
  split; [exact Ha|]. split; [exact Hex|].
  exact (set_primary_then_read_shows_the_target_first sample_store 1 3
           sample_store_unique_image_ids Ha Hex).
Defined.


(** ** Uploading images *)

Section Upload.

Implicit Types (s : store).

(** The loop appends one row per file, in the order of the files. *)
Lemma insert_files_rows files : forall s id currentOrder index,
  let s' := List.last (insert_files s id currentOrder index files) s in
  exists rows,
    apartment_images s' = (apartment_images s ++ rows)%list
    /\ Forall2 (fun f i => image_url i = path f /\ i_apartment_id i = id
                           /\ is_primary i = 0) files rows
    /\ apartments s' = apartments s
    /\ apartment_videos s' = apartment_videos s
    /\ admin_users s' = admin_users s.
Proof.
  induction files as [|f files IH]; intros s id c n; cbv zeta.
  - exists []. simpl. by rewrite app_nil_r.
  - cbn [insert_files]. rewrite last_cons_default.
    destruct (IH (insert_image s id (path f) (c + n)) id c (n + 1))
      as (rows & Himgs & Hrows & Ha & Hv & Hu).
    eexists (_ :: rows). rewrite Himgs, Ha, Hv, Hu. simpl.
    rewrite <- app_assoc. split; [reflexivity|].
    split; [|done]. constructor; [done|exact Hrows].
Qed.

End Upload.

(** X9.  An image upload answers 404 for an id that no listing has and 400
    when no file arrived, and leaves the store as it was in both cases.
    Otherwise it answers 200, keeps every stored image where it was and
    appends one image per file, in the order of the files, each with the
    file's URL, the listing's id and primary flag 0; no other table
    changes. *)
Theorem image_upload_appends_one_row_per_file
    (s : store) (id : Z) (files : list file) :
  let out := uploadImages s id files in
  ((forall a, a ∈ apartments s -> a_id a <> id) -> out = (not_found id, s))
  /\ ((exists a, a ∈ apartments s /\ a_id a = id) -> files = [] ->
      status out.1 = 400 /\ out.2 = s)
  /\ ((exists a, a ∈ apartments s /\ a_id a = id) -> files <> [] ->
      status out.1 = 200
      /\ exists rows,
           apartment_images out.2 = (apartment_images s ++ rows)%list
           /\ Forall2 (fun f i => image_url i = path f
                                  /\ i_apartment_id i = id
                                  /\ is_primary i = 0) files rows
           /\ apartments out.2 = apartments s
           /\ apartment_videos out.2 = apartment_videos s
           /\ admin_users out.2 = admin_users s).
Proof.
  intros out. subst out. unfold uploadImages, uploadImages_steps.
  split; [|split].
  - intros Hnone%get_apartment_None. by rewrite Hnone.
  - intros [a Ha]%get_apartment_Some ->. by rewrite Ha.
  - intros [a Ha]%get_apartment_Some Hne. rewrite Ha.
    destruct files as [|f files]; [done|]. cbn [length Nat.eqb]. cbv iota.
    cbn [fst snd]. split; [done|]. apply insert_files_rows.
Qed.

(** ** What a create answers *)

Section CreateAnswers.

Implicit Types (s : store) (body : object).

Lemma bindable_true v : bindable v = true <-> exists x, bind v = inr x.
Proof.
  unfold bindable. destruct (bind v) as [e|x]; split; try done; eauto.
  by intros [? ?].
Qed.

(** A successful INSERT bound every parameter. *)
Lemma insert_apartment_bound s now t d be ba mg pr ad ci st av fe am id s' :
  insert_apartment s now t d be ba mg pr ad ci st av fe am = inr (id, s') ->
  Forall (fun v => bindable v = true) [d; t; be; ba; mg; pr; ad; ci; st].
Proof.
  intros H. unfold insert_apartment in H.
  destruct (bind t) eqn:Et; [discriminate H|].
  destruct (bind d) eqn:Ed; [discriminate H|].
  destruct (bind be) eqn:Ebe; [discriminate H|].
  destruct (bind ba) eqn:Eba; [discriminate H|].
  destruct (bind mg) eqn:Emg; [discriminate H|].
  destruct (bind pr) eqn:Epr; [discriminate H|].
  destruct (bind ad) eqn:Ead; [discriminate H|].
  destruct (bind ci) eqn:Eci; [discriminate H|].
  destruct (bind st) eqn:Est; [discriminate H|].
  repeat constructor; apply bindable_true; eauto.
Qed.

Lemma insert_apartment_seq s now t d be ba mg pr ad ci st av fe am id s' :
  insert_apartment s now t d be ba mg pr ad ci st av fe am = inr (id, s') ->
  apartments_seq s' = id.
Proof.
  intros H. unfold insert_apartment in H.
  repeat match type of H with
    | match ?m with inl _ => _ | inr _ => _ end = _ =>
        destruct m; [discriminate H|]
    end.
  by injection H as <- <-.
Qed.

(** The values the INSERT binds, by the name of their field. *)
Lemma bound_fields body :
  Forall (fun v => bindable v = true)
    [prop body "description"; prop body "title"; prop body "bedrooms";
     prop body "bathrooms"; prop body "max_guests";
     prop body "price_per_night"; prop body "address"; prop body "city";
     prop body "state"]
  <-> forall k, k ∈ "description" :: requiredFields ->
        bindable (prop body k) = true.
Proof.
  unfold requiredFields. rewrite !Forall_cons, Forall_nil. split.
  - intros (?&?&?&?&?&?&?&?&?&_) k Hk.
    rewrite !elem_of_cons, elem_of_nil in Hk.
    destruct Hk as [->|[->|[->|[->|[->|[->|[->|[->|[->|[]]]]]]]]]]; done.
  - intros H. repeat split; apply H; rewrite !elem_of_cons; auto 12.
Qed.

Ltac is_required := apply elem_of_requiredFields; auto 10.

(** The three ways a create ends. *)
Lemma createApartment_cases s now body :
  let out := createApartment s now body in
  (status out.1 = 400 /\ out.2 = s
   /\ exists k, k ∈ requiredFields /\ truthy (prop body k) = false)
  \/ ((forall k, k ∈ requiredFields -> truthy (prop body k) = true)
      /\ ((status out.1 = 500 /\ out.2 = s
           /\ exists k, k ∈ "description" :: requiredFields
                        /\ bindable (prop body k) = false)
          \/ ((forall k, k ∈ "description" :: requiredFields ->
                 bindable (prop body k) = true)
              /\ exists new,
                   out.1 = mkResponse 201
                             (Listing (Some "Apartment created successfully")
                                (created_listing new))
                   /\ apartments out.2 = (apartments s ++ [new])%list
                   /\ a_id new
                      = next_rowid (apartments_seq s) (a_id <$> apartments s)
                   /\ apartments_seq out.2 = a_id new
                   /\ available new
                      = flag (prop_default body "available" (JBool true))
                   /\ featured new
                      = flag (prop_default body "featured" (JBool false))
                   /\ apartment_images out.2 = apartment_images s
                   /\ apartment_videos out.2 = apartment_videos s
                   /\ admin_users out.2 = admin_users s))).
Proof.
  intros out.
  destruct (decide (status out.1 = 400)) as [H400|Hn400].
  { left. split; [done|]. split; [by apply createApartment_400_unchanged|].
    by apply (createApartment_400 s now body). }
  right.
  assert (forall k, k ∈ requiredFields -> truthy (prop body k) = true) as Ht.
  { intros k Hk. destruct (truthy (prop body k)) eqn:E; [done|].
    destruct Hn400. apply (createApartment_400 s now body). eauto. }
  split; [done|]. subst out. revert Hn400. unfold createApartment.
  rewrite required_guard.
  assert (existsb (fun k => negb (truthy (prop body k))) requiredFields
          = false) as ->.
  { apply not_true_is_false. intros (k & Hk & Hf)%required_guard_true.
    rewrite (Ht k Hk) in Hf. discriminate. }
  intros _.
  destruct (insert_apartment _ _ _ _ _ _ _ _ _ _ _ _ _ _) as [e|[id s']]
    eqn:Ei.
  - left. split; [done|]. split; [done|].
    destruct (decide (Forall (fun v => bindable v = true)
      [prop body "description"; prop body "title"; prop body "bedrooms";
       prop body "bathrooms"; prop body "max_guests";
       prop body "price_per_night"; prop body "address"; prop body "city";
       prop body "state"])) as [Hall|Hsome].
    + exfalso. rewrite !Forall_cons in Hall.
      destruct Hall as (Hd&H1&H2&H3&H4&H5&H6&H7&H8&_).
      apply bindable_true in Hd as [? Hd], H1 as [? H1], H2 as [? H2],
        H3 as [? H3], H4 as [? H4], H5 as [? H5], H6 as [? H6],
        H7 as [? H7], H8 as [? H8].
      edestruct (insert_apartment_bindable s now) as (id & s' & Hins);
        [exact H1|exact Hd|exact H2|exact H3|exact H4|exact H5|exact H6
        |exact H7|exact H8|apply Ht; is_required..|].
      rewrite Hins in Ei. discriminate.
    + apply not_Forall_Exists in Hsome; [|intros v; apply _].
      apply Exists_exists in Hsome as (v & Hv & Hb).
      apply not_true_is_false in Hb. unfold requiredFields.
      rewrite !elem_of_cons, elem_of_nil in Hv.
      destruct Hv as [->|[->|[->|[->|[->|[->|[->|[->|[->|[]]]]]]]]]];
        eexists; (split; [|exact Hb]); rewrite !elem_of_cons; auto 12.
  - right. split.
    { apply bound_fields. eapply insert_apartment_bound. exact Ei. }
    pose proof (insert_apartment_seq _ _ _ _ _ _ _ _ _ _ _ _ _ _ _ _ Ei)
      as Hseq.
    apply insert_apartment_inv in Ei
      as (Hid & Hi' & Hv' & Hu' & new & Hs' & Hnew & Hav & Hfe & _).
    rewrite <- Hnew in Hid.
    pose proof (get_apartment_inserted s s' new Hs' Hid) as Hget.
    rewrite <- Hnew, Hget. exists new. cbn [fst snd].
    rewrite Hnew at 2. done.
Qed.

End CreateAnswers.


(** ** Rowids of listings *)

Section Rowids.

Implicit Types (s : store).

Lemma foldr_max_bounded (seq : Z) (ids : list Z) :
  (forall x, x ∈ ids -> x <= seq) -> foldr Z.max seq ids = seq.
Proof.
  induction ids as [|x ids IH]; simpl; intros H; [done|].
  rewrite IH by (intros y Hy; apply H; by right).
  pose proof (H x (list_elem_of_here x ids)). lia.
Qed.

Lemma next_rowid_seq s :
  seq_bounds s ->
  next_rowid (apartments_seq s) (a_id <$> apartments s) = apartments_seq s + 1.
Proof.
  intros Hb. unfold next_rowid. rewrite foldr_max_bounded; [done|].
  intros x (a & -> & Ha)%list_elem_of_fmap. by apply Hb.
Qed.

Lemma delete_apartment_seq_bounds s id :
  seq_bounds s -> seq_bounds (delete_apartment s id).
Proof.
  intros Hb a [Ha _]%(elem_of_filter_other a_id). by apply Hb.
Qed.

Lemma deleteApartment_store unlink path_join dirname s id :
  (deleteApartment unlink path_join dirname s id).1.2 = s
  \/ (deleteApartment unlink path_join dirname s id).1.2
     = delete_apartment s id.
Proof.
  unfold deleteApartment. destruct (get_apartment s id); [by right|by left].
Qed.

End Rowids.

(** X11.  The id of a deleted listing is never given to a later one: on a
    store whose counter bounds its rowids, a listing created after a delete
    gets an id above the deleted id and above every id the table held. *)
Theorem deleted_id_is_never_given_again
    (unlink : string -> option string) (path_join : list string -> string)
    (dirname : string) (s : store) (id now : Z) (body : object) :
  seq_bounds s ->
  (exists a, a ∈ apartments s /\ a_id a = id) ->
  let s1 := (deleteApartment unlink path_join dirname s id).1.2 in
  status (createApartment s1 now body).1 = 201 ->
  exists created,
    answered_listing (createApartment s1 now body).1 = Some created
    /\ get_apartment (createApartment s1 now body).2 (a_id (row created))
       = Some (row created)
    /\ id < a_id (row created)
    /\ forall a, a ∈ apartments s -> a_id a < a_id (row created).
Proof.
  intros Hb (a0 & Ha0 & Hid0) s1 H201.
  pose proof (createApartment_cases s1 now body) as Hc. cbv zeta in Hc.
  destruct Hc
    as [(H400 & _)
       |[_ [(H500 & _)
            |(_ & new & Hr & Ha & Hid & _)]]];
    [rewrite H400 in H201; discriminate
    |rewrite H500 in H201; discriminate|].
  assert (seq_bounds s1 /\ apartments_seq s1 = apartments_seq s) as [Hb1 Hseq].
  { subst s1.
    destruct (deleteApartment_store unlink path_join dirname s id) as [->| ->];
      [done|]. split; [by apply delete_apartment_seq_bounds|done]. }
  rewrite (next_rowid_seq s1 Hb1), Hseq in Hid.
  exists (created_listing new). rewrite Hr. simpl.
  split; [done|]. split.
  { unfold get_apartment. rewrite Ha. apply find_app_fresh; [|apply Z.eqb_refl].
    intros y Hy. apply Z.eqb_neq. specialize (Hb1 y Hy). lia. }
  split.
  - specialize (Hb a0 Ha0). lia.
  - intros a Ha'. specialize (Hb a Ha'). lia.
Qed.

Lemma sample_store_seq_bounds : seq_bounds sample_store.
Proof.
  intros a Ha. vm_compute in Ha.
  apply list_elem_of_singleton in Ha as ->. done.
Qed.

Lemma deleted_id_is_never_given_again_witness :
  let s1 :=
    (deleteApartment (fun _ => None) (fun _ => "file") "dir" sample_store 1).1.2 in
  let body := <["description" := JNull]> example_body in
  seq_bounds sample_store
  /\ (exists a, a ∈ apartments sample_store /\ a_id a = 1)
  /\ status (createApartment s1 7 body).1 = 201
  /\ exists created,
       answered_listing (createApartment s1 7 body).1 = Some created
       /\ get_apartment (createApartment s1 7 body).2 (a_id (row created))
          = Some (row created)
       /\ 1 < a_id (row created)
       /\ forall a, a ∈ apartments sample_store -> a_id a < a_id (row created).
Proof.
  intros s1 body.
  assert (exists a, a ∈ apartments sample_store /\ a_id a = 1) as Hex.
  { eexists. split; [left|reflexivity]. }
  split; [exact sample_store_seq_bounds|]. split; [exact Hex|].
  split; [reflexivity|].
  exact (deleted_id_is_never_given_again (fun _ => None) (fun _ => "file")
           "dir" sample_store 1 7 body sample_store_seq_bounds Hex eq_refl).
Defined.

(** ** What an update stores *)

Section UpdateWrites.

Implicit Types (s : store) (r : apartment) (updates : object).

















End UpdateWrites.



(** ** Taking a listing off the market and deleting it *)

Section Visibility.

Implicit Types (s : store) (a : apartment).






End Visibility.

Section Toggle.

Implicit Types (s : store) (a : apartment).




Lemma row_with_media s a : row (with_media s a) = a.
Proof. done. Qed.

End Toggle.




Section Gone.

Implicit Types (s : store).

Variable unlink : string -> option string.
Variable path_join : list string -> string.
Variable dirname : string.

Lemma get_apartment_after_delete s id :
  get_apartment (deleteApartment unlink path_join dirname s id).1.2 id = None.
Proof.
  unfold deleteApartment. destruct (get_apartment s id) eqn:E; [|done].
  apply get_apartment_deleted.
Qed.

Lemma get_image_after_delete s id imageId :
  references_exist s ->
  get_image (deleteApartment unlink path_join dirname s id).1.2 imageId id
  = None.
Proof.
  intros [Hrefs _]. unfold deleteApartment.
  destruct (get_apartment s id) as [a|] eqn:E; cbn [fst snd].
  - apply get_image_None.
    intros i [_ Hne]%(elem_of_filter_other i_apartment_id). tauto.
  - apply get_image_None. intros i Hi [_ Hid].
    destruct (Hrefs i Hi) as (a & Ha & Haid).
    assert (get_apartment s id <> None) as Hsome; [|done].
    destruct (get_apartment_Some s id) as [b ->]; [|done].
    exists a. split; [done|congruence].
Qed.

End Gone.

(** X14.  Once a delete has been handled, whatever it answered, the listing
    is gone for every handler: reading it answers 404, neither list shows
    it, an update, an image upload and a video upload answer 404, its
    images cannot be made primary or deleted, and a second delete answers
    404; none of these changes the store. *)
Theorem deleted_listing_is_gone_for_every_handler
    (unlink : string -> option string) (path_join : list string -> string)
    (dirname : string) (destroy : string -> option string)
    (s : store) (id : Z) :
  references_exist s ->
  let s' := (deleteApartment unlink path_join dirname s id).1.2 in
  status (getApartmentById s' id) = 404
  /\ (forall authorization l,
        l ∈ listed (getAllApartments s' authorization) -> a_id (row l) <> id)
  /\ (forall now updates,
        updateApartment s' now id updates = (not_found id, s'))
  /\ (forall files, uploadImages s' id files = (not_found id, s'))
  /\ (forall upload, uploadVideo s' id upload = (Plain (not_found id), s'))
  /\ (forall imageId,
        setPrimaryImage s' id imageId = (image_not_found, s')
        /\ deleteImage destroy s' id imageId = (image_not_found, s', []))
  /\ deleteApartment unlink path_join dirname s' id = (not_found id, s', []).
Proof.
  intros Hrefs s'.
  pose proof (get_apartment_after_delete unlink path_join dirname s id) as Hg.
  fold s' in Hg.
  assert (forall imageId, get_image s' imageId id = None) as Hi.
  { intros imageId. by apply get_image_after_delete. }
  split; [unfold getApartmentById; by rewrite Hg|].
  split.
  { intros authorization l Hl Hid. unfold getAllApartments in Hl.
    cbv zeta in Hl. cbn [listed json body] in Hl.
    apply list_elem_of_fmap in Hl as (a & -> & Ha).
    rewrite row_with_media in Hid.
    assert (a ∈ apartments s') as Hin.
    { destruct (isAdmin authorization).
      - by apply elem_of_select_all.
      - by apply elem_of_select_available in Ha as [? _]. }
    assert (get_apartment s' id <> None) as Hsome; [|done].
    destruct (get_apartment_Some s' id) as [b ->]; [|done]. eauto. }
  split; [intros now updates; unfold updateApartment; by rewrite Hg|].
  split.
  { intros files. unfold uploadImages, uploadImages_steps. by rewrite Hg. }
  split; [intros upload; unfold uploadVideo; by rewrite Hg|].
  split.
  { intros imageId. split.
    - unfold setPrimaryImage, setPrimaryImage_steps. by rewrite Hi.
    - unfold deleteImage. by rewrite Hi. }
  unfold deleteApartment at 1. by rewrite Hg.
Qed.

Lemma sample_store_references : references_exist sample_store.
Proof.
  split.
  - intros i Hi. exists (default (mkApartment 0 SNull SNull SNull SNull SNull
      SNull SNull SNull SNull 0 0 None 0 0) (head (apartments sample_store))).
    split; [vm_compute; left|].
    vm_compute in Hi.
    repeat (apply elem_of_cons in Hi as [->|Hi]; [reflexivity|]).
    by apply elem_of_nil in Hi.
  - intros v Hv. vm_compute in Hv. by apply elem_of_nil in Hv.
Qed.

Lemma deleted_listing_is_gone_for_every_handler_witness :
  let unlink : string -> option string := fun _ => Some "ENOENT" in
  let path_join : list string -> string := fun _ => "file" in
  let destroy : string -> option string := fun _ => None in
  let s' := (deleteApartment unlink path_join "dir" sample_store 1).1.2 in
  references_exist sample_store
  /\ status (getApartmentById s' 1) = 404
  /\ (forall authorization l,
        l ∈ listed (getAllApartments s' authorization) -> a_id (row l) <> 1)
  /\ (forall now updates,
        updateApartment s' now 1 updates = (not_found 1, s'))
  /\ (forall files, uploadImages s' 1 files = (not_found 1, s'))
  /\ (forall upload, uploadVideo s' 1 upload = (Plain (not_found 1), s'))
  /\ (forall imageId,
        setPrimaryImage s' 1 imageId = (image_not_found, s')
        /\ deleteImage destroy s' 1 imageId = (image_not_found, s', []))
  /\ deleteApartment unlink path_join "dir" s' 1 = (not_found 1, s', []).
Proof.
  intros unlink path_join destroy s'.
  split; [exact sample_store_references|].
  exact (deleted_listing_is_gone_for_every_handler unlink path_join "dir"
           destroy sample_store 1 sample_store_references).
Defined.

(** ** Logging in and staying logged in *)

Section Session.

Variable bcrypt_compare : string -> string -> bool.
Variable jwt_sign : Z -> string -> result string.
Variable jwt_verify : string -> verification.

Implicit Types (s : store) (body : object).


Lemma bearer_token_attached token :
  token <> EmptyString -> contains " " token = false ->
  bearer_token (attach_token (Some token)) = Some token.
Proof.
  intros Hne Hsp. unfold attach_token. rewrite truthy_JStr by done.
  unfold bearer_token.
  change ("Bearer " +:+ token) with ("Bearer" +:+ String " " token).
  rewrite split_on_app, (split_on_absent " " token Hsp). simpl.
  by destruct (String.eqb_spec token EmptyString).
Qed.

End Session.



(** X16.  The token of a login answer, stored by the frontend and attached
    by its request interceptor, passes the middleware with the identity the
    token decodes to, when the token is not empty and has no blank; the same
    header makes the listing route answer with the unfiltered list. *)
Theorem stored_token_passes_the_middleware
    (jwt_verify : string -> verification) (token : string) (id name : jsval) :
  token <> EmptyString -> contains " " token = false ->
  jwt_verify token = Decoded id name ->
  attach_token (Some token) = Some ("Bearer " +:+ token)
  /\ authenticateAdmin jwt_verify (attach_token (Some token))
     = Next (mkIdentity id name)
  /\ protected jwt_verify (attach_token (Some token)) verifyToken
     = inr (json (TokenValid "Token is valid" (mkIdentity id name)))
  /\ forall s, getAllApartments s (attach_token (Some token))
               = getAllApartments s (Some "Bearer").
Proof.
  intros Hne Hsp Hv.
  pose proof (bearer_token_attached token Hne Hsp) as Hb.
  pose proof (authenticateAdmin_token jwt_verify _ _ Hb) as Ha.
  rewrite Hv in Ha.
  split; [unfold attach_token; by rewrite truthy_JStr|].
  split; [done|]. split; [unfold protected; by rewrite Ha|].
  intros s. unfold getAllApartments, attach_token.
  by rewrite truthy_JStr.
Qed.

Lemma stored_token_passes_the_middleware_witness :
  let jwt_verify : string -> verification :=
    fun t => if String.eqb t "token" then Decoded (JNum 1) (JStr "admin")
             else Thrown "JsonWebTokenError" "jwt malformed" in
  "token" <> EmptyString /\ contains " " "token" = false
  /\ jwt_verify "token" = Decoded (JNum 1) (JStr "admin")
  /\ attach_token (Some "token") = Some ("Bearer " +:+ "token")
  /\ authenticateAdmin jwt_verify (attach_token (Some "token"))
     = Next (mkIdentity (JNum 1) (JStr "admin"))
  /\ protected jwt_verify (attach_token (Some "token")) verifyToken
     = inr (json (TokenValid "Token is valid"
                    (mkIdentity (JNum 1) (JStr "admin"))))
  /\ forall s, getAllApartments s (attach_token (Some "token"))
               = getAllApartments s (Some "Bearer").
Proof.
  intros jwt_verify.
  assert ("token" <> EmptyString) as Hne by discriminate.
  split; [exact Hne|]. split; [reflexivity|]. split; [reflexivity|].
  exact (stored_token_passes_the_middleware jwt_verify "token" (JNum 1)
           (JStr "admin") Hne eq_refl eq_refl).
Defined.

(** X17.  Without a stored token the interceptor sends no Authorization
    header, and every protected route answers 401; a 401 answer makes the
    response interceptor drop the stored token, so the next request is
    sent without header. *)
Theorem no_stored_token_is_refused
    (jwt_verify : string -> verification) (adminToken : option string)
    (handler : identity -> response) :
  attach_token None = None
  /\ attach_token (Some EmptyString) = None
  /\ attach_token (after_response 401 adminToken) = None
  /\ (forall st, st <> 401 -> after_response st adminToken = adminToken)
  /\ exists r, protected jwt_verify None handler = inl r /\ status r = 401.
Proof.
  split; [done|]. split; [done|]. split; [done|]. split.
  - intros st Hst. unfold after_response.
    by destruct (Z.eqb_spec st 401).
  - eexists. split; [reflexivity|done].
Qed.

(** ** The default admin *)

Section DefaultAdmin.

Implicit Types (s : store).

Lemma env_or_nonempty x fallback :
  fallback <> EmptyString -> env_or x fallback <> EmptyString.
Proof.
  intros Hf. unfold env_or. destruct x as [v|]; [|done].
  simpl. by destruct (String.eqb_spec v EmptyString).
Qed.

Lemma createDefaultAdmin_admins U P hashSync s :
  admin_users (createDefaultAdmin U P hashSync s) <> [].
Proof.
  unfold createDefaultAdmin. destruct (admin_users s) eqn:E; simpl.
  - rewrite E. done.
  - by rewrite E.
Qed.

Lemma prop_credentials name pass :
  prop (credentials name pass) "username" = name
  /\ prop (credentials name pass) "password" = pass.
Proof.
  unfold credentials, prop. cbn [list_to_map foldr uncurry fst snd].
  split.
  - by rewrite lookup_insert.
  - by rewrite lookup_insert_ne, lookup_insert by done.
Qed.

End DefaultAdmin.

(** X18.  The default admin is created once: initialising a database a
    second time, with whatever ADMIN_USERNAME, ADMIN_PASSWORD and hash
    function, changes nothing, so a password changed in the environment
    afterwards is not the one stored; and initialising touches no table but
    [admin_users], where it leaves at least one admin. *)
Theorem default_admin_is_created_once
    (U1 P1 U2 P2 : option string) (hash1 hash2 : string -> string)
    (s : store) :
  let s1 := initializeDatabase U1 P1 hash1 s in
  initializeDatabase U2 P2 hash2 s1 = s1
  /\ admin_users s1 <> []
  /\ (admin_users s <> [] -> s1 = s)
  /\ apartments s1 = apartments s
  /\ apartment_images s1 = apartment_images s
  /\ apartment_videos s1 = apartment_videos s.
Proof.
  intros s1. subst s1. unfold initializeDatabase.
  pose proof (createDefaultAdmin_admins U1 P1 hash1 s) as Hne.
  split.
  { unfold createDefaultAdmin at 1.
    by destruct (admin_users (createDefaultAdmin U1 P1 hash1 s)). }
  split; [done|].
  unfold createDefaultAdmin. by destruct (admin_users s).
Qed.

(** X19.  On a database without admin, initialisation stores one admin
    with the name of the environment and the hash of its password (admin and
    admin123 when these are unset or empty), and that admin can log in with
    them and gets the token signed for its id and name, provided
    [bcrypt.compare] accepts a password against its own hash and signing
    succeeds. *)
Theorem default_admin_can_log_in
    (U P : option string) (hashSync : string -> string)
    (bcrypt_compare : string -> string -> bool)
    (jwt_sign : Z -> string -> result string) (s : store) :
  admin_users s = [] ->
  (forall p, bcrypt_compare p (hashSync p) = true) ->
  (forall id name, exists token, jwt_sign id name = inr token) ->
  exists admin token,
    admin_users (initializeDatabase U P hashSync s) = [admin]
    /\ username admin = env_or U "admin"
    /\ password admin = hashSync (env_or P "admin123")
    /\ jwt_sign (u_id admin) (username admin) = inr token
    /\ login bcrypt_compare jwt_sign (initializeDatabase U P hashSync s)
         (credentials (JStr (env_or U "admin")) (JStr (env_or P "admin123")))
       = json (LoggedIn "Login successful" token (u_id admin)
                 (username admin)).
Proof.
  intros Hempty Hhash Hsign.
  unfold initializeDatabase, createDefaultAdmin. rewrite Hempty.
  set (admin := mkAdmin (next_rowid 0 [])
                  (env_or U "admin") (hashSync (env_or P "admin123"))).
  destruct (Hsign (u_id admin) (username admin)) as [token Htoken].
  exists admin, token.
  split; [unfold insert_admin; cbn [admin_users]; by rewrite Hempty|].
  split; [done|]. split; [done|]. split; [done|].
  unfold login.
  destruct (prop_credentials (JStr (env_or U "admin"))
              (JStr (env_or P "admin123"))) as [-> ->].
  assert (truthy (JStr (env_or U "admin")) = true) as ->
    by (apply truthy_JStr, env_or_nonempty; discriminate).
  assert (truthy (JStr (env_or P "admin123")) = true) as ->
    by (apply truthy_JStr, env_or_nonempty; discriminate).
  cbn -[env_or]. rewrite Hempty. cbn -[env_or].
  rewrite String.eqb_refl, Hhash. cbn -[env_or].
  cbn -[env_or next_rowid] in Htoken. by rewrite Htoken.
Qed.

Lemma default_admin_can_log_in_witness :
  let hashSync : string -> string := fun p => "$2a$10$" +:+ p in
  let bcrypt_compare : string -> string -> bool :=
    fun p h => String.eqb h ("$2a$10$" +:+ p) in
  admin_users empty_store = []
  /\ (forall p, bcrypt_compare p (hashSync p) = true)
  /\ (forall id name, exists token, sign_constant id name = inr token)
  /\ exists admin token,
       admin_users (initializeDatabase None (Some "s3cret") hashSync empty_store)
       = [admin]
       /\ username admin = env_or None "admin"
       /\ password admin = hashSync (env_or (Some "s3cret") "admin123")
       /\ sign_constant (u_id admin) (username admin) = inr token
       /\ login bcrypt_compare sign_constant
            (initializeDatabase None (Some "s3cret") hashSync empty_store)
            (credentials (JStr (env_or None "admin"))
               (JStr (env_or (Some "s3cret") "admin123")))
          = json (LoggedIn "Login successful" token (u_id admin)
                    (username admin)).
Proof.
  intros hashSync bcrypt_compare.
  assert (forall p, bcrypt_compare p (hashSync p) = true) as Hhash
    by (intros p; apply String.eqb_refl).
  assert (forall id name, exists token, sign_constant id name = inr token)
    as Hsign by (intros id name; by exists "token").
  split; [reflexivity|]. split; [exact Hhash|]. split; [exact Hsign|].
  exact (default_admin_can_log_in None (Some "s3cret") hashSync bcrypt_compare
           sign_constant empty_store eq_refl Hhash Hsign).
Defined.

(** ** The router *)

Section Routing.

Variable jwt_verify : string -> verification.
Variable unlink : string -> option string.
Variable path_join : list string -> string.
Variable dirname : string.
Variable destroy : string -> option string.
Variable rowid_of : string -> option Z.

Implicit Types (s : store) (q : request) (r : route).

Lemma dispatch_route m path r :
  dispatch m path = Some r ->
  r ∈ routes /\ verb_of r = m
  /\ exists params, match_path (pattern r) path = Some params.
Proof.
  unfold dispatch. intros [Hin Hm]%find_some. apply list_elem_of_In in Hin.
  split; [done|]. unfold matches in Hm. apply andb_true_iff in Hm as [Hv Hp].
  split.
  - by destruct (verb_of r), m.
  - destruct (match_path (pattern r) path) as [params|]; [eauto|discriminate].
Qed.

(** The statistics route is registered after [/:id], which takes its
    path. *)
Lemma dispatch_never_statistics m path r :
  dispatch m path = Some r -> handler_of r <> OnStatistics.
Proof.
  unfold dispatch, routes. cbn [List.find].
  destruct (matches m path (mkRoute GET [] false OnGetAll));
    [intros H; by injection H as <-|].
  destruct (matches m path (mkRoute GET [Param] false OnGetById)) eqn:E2;
    [intros H; by injection H as <-|].
  destruct (matches m path (mkRoute GET [Lit "statistics"] true OnStatistics))
    eqn:E3.
  - exfalso. unfold matches in E2, E3.
    cbn [verb_of pattern match_path] in E2, E3.
    destruct (verb_eqb GET m); [|discriminate E3].
    rewrite andb_true_l in E2, E3.
    destruct path as [|p path]; [discriminate E3|].
    destruct (String.eqb (lower "statistics") (lower p)) eqn:El;
      [|discriminate E3].
    destruct path as [|p' path]; [|discriminate E3].
    destruct (String.eqb_spec p EmptyString) as [->|Hne];
      [vm_compute in El; discriminate El|discriminate E2].
  - repeat match goal with
      | |- context [if ?c then _ else _] =>
          destruct c; [intros H; by injection H as <-|]
      end.
    discriminate.
Qed.

Lemma run_store h params s q :
  (run unlink path_join dirname destroy rowid_of h params s q).1.2 <> s ->
  h <> OnGetAll /\ h <> OnGetById /\ h <> OnStatistics.
Proof.
  destruct h; simpl; try done.
  destruct params as [|id [|? ?]]; try done. by destruct (rowid_of id).
Qed.

End Routing.

(** X20.  The statistics handler cannot be reached: [/:id] is registered
    before [/statistics] and takes every path the latter matches, so no
    request is answered with statistics, and GET /statistics is answered by
    the read-one handler, without any token, with the 404 of a listing that
    does not exist (the text names no rowid). *)
Theorem statistics_route_is_shadowed
    (jwt_verify : string -> verification)
    (unlink : string -> option string) (path_join : list string -> string)
    (dirname : string) (destroy : string -> option string)
    (rowid_of : string -> option Z) (s : store) :
  rowid_of "statistics" = None ->
  (forall q st,
     (serve jwt_verify unlink path_join dirname destroy rowid_of s q).1.1
     <> Answered (StatisticsAnswer st))
  /\ forall q, method q = GET -> path_of q = ["statistics"] ->
       serve jwt_verify unlink path_join dirname destroy rowid_of s q
       = (Answered (Plain (no_apartment "statistics")), s, []).
Proof.
  intros Hrow. split.
  - intros q st. unfold serve.
    destruct (dispatch (method q) (path_of q)) as [r|] eqn:Ed; [|done].
    pose proof (dispatch_never_statistics _ _ _ Ed) as Hns.
    destruct (match_path (pattern r) (path_of q)) as [params|]; [|done].
    assert (forall h params,
              h <> OnStatistics ->
              (run unlink path_join dirname destroy rowid_of h params s q).1.1
              <> Answered (StatisticsAnswer st)) as Hrun.
    { clear. intros h params Hh. destruct h; simpl; try done.
      - destruct params as [|id [|? ?]]; try done. by destruct (rowid_of id).
      - by destruct (createApartment s (arrival q) (body_of q)).
      - destruct params as [|id [|? ?]]; try done.
        destruct (rowid_of id); [|done].
        by destruct (updateApartment s (arrival q) z (body_of q)).
      - destruct params as [|id [|? ?]]; try done.
        destruct (rowid_of id); [|done].
        by destruct (deleteApartment unlink path_join dirname s z) as [[? ?] ?].
      - destruct params as [|id [|? ?]]; try done;
          destruct (images q); try done.
        destruct (rowid_of id); [|done].
        by destruct (uploadImages s z l).
      - destruct params as [|id [|? ?]]; try done;
          destruct (video q) as [?|upload]; try done.
        destruct (rowid_of id) as [n|]; [|done].
        unfold uploadVideo. destruct (get_apartment s n); [|done].
        by destruct upload.
      - destruct params as [|a [|i [|? ?]]]; try done.
        destruct (rowid_of a), (rowid_of i); try done.
        by destruct (deleteImage destroy s z z0) as [[? ?] ?].
      - destruct params as [|a [|i [|? ?]]]; try done.
        destruct (rowid_of a), (rowid_of i); try done.
        by destruct (setPrimaryImage s z z0). }
    destruct (guarded r); [|by apply Hrun].
    destruct (authenticateAdmin jwt_verify (authorization q)); [done|].
    by apply Hrun.
  - intros q Hm Hp. unfold serve. rewrite Hm, Hp.
    change (dispatch GET ["statistics"])
      with (Some (mkRoute GET [Param] false OnGetById)).
    simpl. by rewrite Hrow.
Qed.

Lemma statistics_route_is_shadowed_witness :
  let jwt_verify : string -> verification :=
    fun _ => Thrown "JsonWebTokenError" "jwt malformed" in
  let rowid_of : string -> option Z := fun _ => None in
  let serve' :=
    serve jwt_verify (fun _ => None) (fun _ => "file") "dir" (fun _ => None)
      rowid_of sample_store in
  rowid_of "statistics" = None
  /\ (forall q st, (serve' q).1.1 <> Answered (StatisticsAnswer st))
  /\ forall q, method q = GET -> path_of q = ["statistics"] ->
       serve' q
       = (Answered (Plain (no_apartment "statistics")), sample_store, []).
Proof.
  intros jwt_verify rowid_of serve'. split; [reflexivity|].
  exact (statistics_route_is_shadowed jwt_verify (fun _ => None)
           (fun _ => "file") "dir" (fun _ => None) rowid_of sample_store
           eq_refl).
Defined.

(** X21.  Nothing is written without a verified token: a request that
    leaves the store changed is not a GET and carries an Authorization
    header whose token [jwt.verify] decodes. *)
Theorem store_changes_only_behind_a_verified_token
    (jwt_verify : string -> verification)
    (unlink : string -> option string) (path_join : list string -> string)
    (dirname : string) (destroy : string -> option string)
    (rowid_of : string -> option Z) (s : store) (q : request) :
  (serve jwt_verify unlink path_join dirname destroy rowid_of s q).1.2 <> s ->
  method q <> GET
  /\ exists token id name,
       bearer_token (authorization q) = Some token
       /\ jwt_verify token = Decoded id name.
Proof.
  unfold serve.
  destruct (dispatch (method q) (path_of q)) as [r|] eqn:Ed; [|done].
  destruct (dispatch_route _ _ _ Ed) as (Hin & Hverb & params & Hp).
  rewrite Hp.
  assert (guarded r = false ->
          handler_of r = OnGetAll \/ handler_of r = OnGetById) as Hopen.
  { unfold routes in Hin. rewrite !elem_of_cons, elem_of_nil in Hin.
    intros Hg.
    repeat (destruct Hin as [->|Hin]; [simpl in *; auto; discriminate|]).
    done. }
  assert (verb_of r = GET ->
          handler_of r = OnGetAll \/ handler_of r = OnGetById
          \/ handler_of r = OnStatistics) as Hget.
  { unfold routes in Hin. rewrite !elem_of_cons, elem_of_nil in Hin.
    intros Hg.
    repeat (destruct Hin as [->|Hin]; [simpl in *; auto; discriminate|]).
    done. }
  destruct (guarded r) eqn:Eg.
  - destruct (authenticateAdmin jwt_verify (authorization q)) as [?|admin]
      eqn:Ea; [done|].
    intros Hch%run_store. split.
    + rewrite <- Hverb. intros Hv. destruct (Hget Hv) as [?|[?|?]]; tauto.
    + destruct (bearer_token (authorization q)) as [token|] eqn:Eb.
      * rewrite (authenticateAdmin_token jwt_verify _ _ Eb) in Ea.
        destruct (jwt_verify token) as [id name|name message] eqn:Ev;
          [by exists token, id, name|].
        exfalso. destruct (String.eqb name "JsonWebTokenError");
          [discriminate|].
        destruct (String.eqb name "TokenExpiredError"); discriminate.
      * pose proof (authenticateAdmin_no_token jwt_verify _ Eb) as Hr.
        rewrite Ea in Hr. discriminate.
  - intros Hch%run_store. destruct (Hopen eq_refl); tauto.
Qed.

Lemma store_changes_only_behind_a_verified_token_witness :
  let jwt_verify : string -> verification :=
    fun t => if String.eqb t "token" then Decoded (JNum 1) (JStr "admin")
             else Thrown "JsonWebTokenError" "jwt malformed" in
  let q :=
    mkRequest 7 POST [] (Some "Bearer token")
      (<["description" := JNull]> example_body) (inr []) (inr None) in
  let out :=
    serve jwt_verify (fun _ => None) (fun _ => "file") "dir" (fun _ => None)
      (fun _ => None) empty_store q in
  out.1.2 <> empty_store
  /\ method q <> GET
  /\ exists token id name,
       bearer_token (authorization q) = Some token
       /\ jwt_verify token = Decoded id name.
Proof.
  intros jwt_verify q out.
  assert (out.1.2 <> empty_store) as Hch.
  { intros H. apply (f_equal (fun s => length (apartments s))) in H.
    vm_compute in H. discriminate H. }
  split; [exact Hch|].
  exact (store_changes_only_behind_a_verified_token jwt_verify
           (fun _ => None) (fun _ => "file") "dir" (fun _ => None)
           (fun _ => None) empty_store q Hch).
Defined.

(** ** What every request keeps true of the store *)

Section Consistency.

Implicit Types (s : store) (a : apartment) (i : image).












Section Served.

Variable jwt_verify : string -> verification.
Variable unlink : string -> option string.
Variable path_join : list string -> string.
Variable dirname : string.
Variable destroy : string -> option string.
Variable rowid_of : string -> option Z.



End Served.

Lemma empty_store_consistent : consistent empty_store.
Proof.
  split; [by intros a ?%elem_of_nil|]. split; [apply NoDup_nil_2|].
  split; [by intros a ?%elem_of_nil|]. split; [apply NoDup_nil_2|].
  split; [split; by intros ? ?%elem_of_nil|]. intros l. unfold primary_count, empty_store. simpl. lia.
Qed.

End Consistency.


(** ** The migration *)

Section Migrate.

Implicit Types (columns : list string).

Lemma add_column_inv columns name t :
  add_column columns name = Some t ->
  t = (columns ++ [name])%list /\ name ∉ columns.
Proof.
  unfold add_column.
  destruct (existsb _ columns) eqn:E; [discriminate|]. intros [= <-].
  split; [done|]. intros Hin. apply not_true_iff_false in E. apply E.
  apply existsb_exists. exists name. split; [by apply list_elem_of_In|].
  apply String.eqb_refl.
Qed.

Lemma add_column_present columns name :
  name ∈ columns -> add_column columns name = None.
Proof.
  intros Hin. destruct (add_column columns name) as [t|] eqn:E; [|done].
  by apply add_column_inv in E as [_ Hn].
Qed.

Lemma includes_app l l' k :
  includes (l ++ l') k = includes l k || includes l' k.
Proof. unfold includes. apply existsb_app. Qed.

End Migrate.

(** X23.  The migration only ever appends the columns [featured] and
    [amenities]: the columns it found stay in front, in their order.  When
    it reports completion both columns exist, and a second run then changes
    nothing and reports completion without adding a column; on the table
    [initializeDatabase] creates, the first run already does so. *)
Theorem migration_only_appends_and_settles (columns : list string) :
  (exists added, (migrate (Some columns)).1 = Some (columns ++ added)%list
                 /\ forall c, c ∈ added -> c = "featured" \/ c = "amenities")
  /\ (Completed ∈ (migrate (Some columns)).2 ->
      exists t, (migrate (Some columns)).1 = Some t
                /\ "featured" ∈ t /\ "amenities" ∈ t
                /\ migrate (Some t) = (Some t, [Completed]))
  /\ migrate (Some created_columns) = (Some created_columns, [Completed]).
Proof.
  split; [|split; [|reflexivity]].
  - unfold migrate.
    destruct (includes columns "featured") eqn:Ef; simpl negb; cbv iota.
    + destruct (includes columns "amenities") eqn:Ea; simpl negb; cbv iota.
      * exists []. rewrite app_nil_r. split; [done|]. by intros c ?%elem_of_nil.
      * destruct (add_column columns "amenities") as [t|] eqn:E.
        -- apply add_column_inv in E as [-> _]. exists ["amenities"].
           split; [done|]. intros c ->%list_elem_of_singleton. by right.
        -- exists []. rewrite app_nil_r. split; [done|].
           by intros c ?%elem_of_nil.
    + destruct (add_column columns "featured") as [t1|] eqn:E1.
      * apply add_column_inv in E1 as [-> _].
        destruct (includes columns "amenities") eqn:Ea; simpl negb; cbv iota.
        -- exists ["featured"]. split; [done|].
           intros c ->%list_elem_of_singleton. by left.
        -- destruct (add_column (columns ++ ["featured"]) "amenities")
             as [t2|] eqn:E2.
           ++ apply add_column_inv in E2 as [-> _].
              exists ["featured"; "amenities"]. rewrite <- app_assoc.
              split; [done|].
              intros c [->|[->|[]%elem_of_nil]%elem_of_cons]%elem_of_cons;
                auto.
           ++ exists ["featured"]. split; [done|].
              intros c ->%list_elem_of_singleton. by left.
      * exists []. rewrite app_nil_r. split; [done|].
        by intros c ?%elem_of_nil.
  - assert (forall t, "featured" ∈ t -> "amenities" ∈ t ->
              migrate (Some t) = (Some t, [Completed])) as Hsettled.
    { intros t Hf%includes_elem_of Ha%includes_elem_of. unfold migrate.
      by rewrite Hf, Ha. }
    assert (forall t, "featured" ∈ t -> "amenities" ∈ t ->
              exists t', Some t = Some t'
                         /\ "featured" ∈ t' /\ "amenities" ∈ t'
                         /\ migrate (Some t') = (Some t', [Completed]))
      as Hdone by (intros t Hf Ha; exists t; auto).
    destruct (migrate (Some columns)) as [t' log] eqn:Em. cbn [fst snd].
    unfold migrate in Em. revert Em.
    destruct (includes columns "featured") eqn:Ef; simpl negb; cbv iota.
    + apply includes_elem_of in Ef.
      destruct (includes columns "amenities") eqn:Ea; simpl negb; cbv iota.
      * apply includes_elem_of in Ea. intros [= <- <-] _. by apply Hdone.
      * destruct (add_column columns "amenities") as [t|] eqn:E.
        -- apply add_column_inv in E as [-> _]. intros [= <- <-] _.
           apply Hdone; apply elem_of_app; [by left|right; by left].
        -- intros [= <- <-] [=]%list_elem_of_singleton.
    + destruct (add_column columns "featured") as [t1|] eqn:E1.
      * apply add_column_inv in E1 as [-> _].
        destruct (includes columns "amenities") eqn:Ea; simpl negb; cbv iota.
        -- apply includes_elem_of in Ea. intros [= <- <-] _.
           apply Hdone; apply elem_of_app; [right; by left|by left].
        -- destruct (add_column (columns ++ ["featured"]) "amenities")
             as [t2|] eqn:E2.
           ++ apply add_column_inv in E2 as [-> _]. intros [= <- <-] _.
              apply Hdone; apply elem_of_app; [left|right; by left].
              apply elem_of_app; right; by left.
           ++ intros [= <- <-].
              intros [[=]|[=]%list_elem_of_singleton]%elem_of_cons.
      * intros [= <- <-] [=]%list_elem_of_singleton.
Qed.

(** ** The pages *)

Section Pages.


Lemma length_app (x y : string) :
  String.length (x +:+ y) = (String.length x + String.length y)%nat.
Proof. induction x as [|c x IH]; simpl; [done|]. by rewrite IH. Qed.

Lemma find_head_sorted (l : list image) :
  (forall i, i ∈ l -> is_primary i = 0 \/ is_primary i = 1) ->
  (forall p q x y, l !! p = Some x -> l !! q = Some y ->
     is_primary x = 1 -> is_primary y = 0 -> (p < q)%nat) ->
  primaryImage (Some l) = head l.
Proof.
  intros Hflags Hfirst. unfold primaryImage.
  destruct l as [|h rest]; [done|]. cbn [List.find head].
  destruct (Hflags h (list_elem_of_here h rest)) as [H0|H1].
  - unfold Boolean at 1. rewrite H0. cbn [Z.eqb negb].
    destruct (List.find _ rest) as [x|] eqn:E; [exfalso|done].
    apply find_some in E as [Hin Hb]. apply list_elem_of_In in Hin.
    assert (is_primary x = 1) as Hx.
    { destruct (Hflags x) as [Hx|Hx]; [by right| |done].
      unfold Boolean in Hb. by rewrite Hx in Hb. }
    apply list_elem_of_lookup in Hin as [q Hq].
    pose proof (Hfirst (S q) 0%nat x h Hq eq_refl Hx H0). lia.
  - unfold Boolean. by rewrite H1.
Qed.

End Pages.

(** X24.  The listing card shows the first image of the answer: when every
    stored primary flag is 0 or 1, the image the card looks for in the images
    of a listing as the list and read routes deliver them is the head of
    that list, and none only when the listing has no image. *)
Theorem card_shows_the_first_image_of_the_answer (s : store) (a : apartment) :
  (forall i, i ∈ apartment_images s -> is_primary i = 0 \/ is_primary i = 1) ->
  primaryImage (l_images (with_media s a))
  = head (select_images_ordered s (a_id a))
  /\ (primaryImage (l_images (with_media s a)) = None
      <-> forall i, i ∈ apartment_images s -> i_apartment_id i <> a_id a).
Proof.
  intros Hflags. cbn [with_media l_images].
  assert (primaryImage (Some (select_images_ordered s (a_id a)))
          = head (select_images_ordered s (a_id a))) as Hhead.
  { destruct (select_images_ordered_sorted s (a_id a)) as [Hfirst _].
    apply find_head_sorted; [|exact Hfirst].
    intros i [Hin _]%elem_of_select_images_ordered. by apply Hflags. }
  split; [done|]. rewrite Hhead. split.
  - intros Hnone i Hin Hid.
    assert (i ∈ select_images_ordered s (a_id a)) as Hi
      by by apply elem_of_select_images_ordered.
    destruct (select_images_ordered s (a_id a)); [|discriminate].
    by apply elem_of_nil in Hi.
  - intros Hno. destruct (select_images_ordered s (a_id a)) as [|i l] eqn:E;
      [done|exfalso].
    assert (i ∈ select_images_ordered s (a_id a)) as Hi
      by (rewrite E; by left).
    apply elem_of_select_images_ordered in Hi as [Hin Hid]. by eapply Hno.
Qed.

Lemma sample_store_primary_flags :
  forall i, i ∈ apartment_images sample_store ->
    is_primary i = 0 \/ is_primary i = 1.
Proof.
  intros i Hi. vm_compute in Hi.
  repeat (apply elem_of_cons in Hi as [->|Hi]; [simpl; auto|]).
  by apply elem_of_nil in Hi.
Qed.

Lemma card_shows_the_first_image_of_the_answer_witness :
  let a :=
    mkApartment 1 (SText "Loft") SNull (SInt 2) (SInt 2) (SInt 4) (SInt 35000)
      (SText "123 Cadastral Zone") (SText "Abuja") (SText "FCT") 1 0 None 0 0 in
  (forall i, i ∈ apartment_images sample_store ->
     is_primary i = 0 \/ is_primary i = 1)
  /\ primaryImage (l_images (with_media sample_store a))
     = head (select_images_ordered sample_store (a_id a))
  /\ (primaryImage (l_images (with_media sample_store a)) = None
      <-> forall i, i ∈ apartment_images sample_store ->
            i_apartment_id i <> a_id a).
Proof.
  intros a. split; [exact sample_store_primary_flags|].
  exact (card_shows_the_first_image_of_the_answer sample_store a
           sample_store_primary_flags).
Defined.



(** X26.  The carousel never leaves its images: with at least one image
    and a current index inside the list, any sequence of clicks on the
    arrows and on rendered thumbnails leaves the index inside the list;
    the arrows wrap around, and each undoes the other. *)
Theorem carousel_index_stays_inside
    (n : Z) (currentIndex : Z) (clicks : list click) :
  0 < n -> 0 <= currentIndex < n ->
  (forall index, Thumbnail index ∈ clicks -> Z.of_nat index < n) ->
  0 <= foldl (clicked n) currentIndex clicks < n
  /\ goToPrevious n (goToNext n currentIndex) = currentIndex
  /\ goToNext n (goToPrevious n currentIndex) = currentIndex
  /\ goToNext n (n - 1) = 0
  /\ goToPrevious n 0 = n - 1.
Proof.
  intros Hn Hi Hthumbs. split.
  - revert currentIndex Hi. induction clicks as [|c clicks IH];
      intros i Hi; [done|].
    cbn [foldl]. apply IH.
    + intros index Hin. apply Hthumbs. by right.
    + destruct c as [| |index]; unfold clicked, goToPrevious, goToNext, goToSlide.
      * destruct (Z.eqb_spec i 0); lia.
      * destruct (Z.eqb_spec i (n - 1)); lia.
      * pose proof (Hthumbs index (list_elem_of_here _ _)). lia.
  - unfold goToPrevious, goToNext.
    repeat split.
    + destruct (Z.eqb_spec currentIndex (n - 1)).
      * rewrite Z.eqb_refl. lia.
      * destruct (Z.eqb_spec (currentIndex + 1) 0); lia.
    + destruct (Z.eqb_spec currentIndex 0).
      * rewrite Z.eqb_refl. lia.
      * destruct (Z.eqb_spec (currentIndex - 1) (n - 1)); lia.
    + by rewrite Z.eqb_refl.
Qed.

Lemma carousel_index_stays_inside_witness :
  let clicks := [Previous; Thumbnail 1; Following; Following] in
  0 < 3 /\ 0 <= 0 < 3
  /\ (forall index, Thumbnail index ∈ clicks -> Z.of_nat index < 3)
  /\ 0 <= foldl (clicked 3) 0 clicks < 3
  /\ goToPrevious 3 (goToNext 3 0) = 0
  /\ goToNext 3 (goToPrevious 3 0) = 0
  /\ goToNext 3 (3 - 1) = 0
  /\ goToPrevious 3 0 = 3 - 1.
Proof.
  intros clicks.
  assert (0 < 3) as Hn by lia. assert (0 <= 0 < 3) as Hi by lia.
  assert (forall index, Thumbnail index ∈ clicks -> Z.of_nat index < 3) as Ht.
  { intros index Hin. unfold clicks in Hin.
    rewrite !elem_of_cons, elem_of_nil in Hin.
    destruct Hin as [H|[H|[H|[H|[]]]]]; try discriminate H.
    injection H as ->. lia. }
  split; [exact Hn|]. split; [exact Hi|]. split; [exact Ht|].
  exact (carousel_index_stays_inside 3 0 clicks Hn Hi Ht).
Defined.

(** X27.  Toggling an amenity of the form flips that amenity and no other:
    afterwards it is selected exactly when it was not, every other amenity
    is selected as before, no amenity becomes selected twice, and toggling
    an unselected amenity twice gives the former selection back. *)
Theorem amenity_toggle_flips_one_amenity
    (amenities : list string) (amenity : string) :
  (amenity ∈ handleAmenityToggle amenities amenity <-> amenity ∉ amenities)
  /\ (forall other, other <> amenity ->
        other ∈ handleAmenityToggle amenities amenity <-> other ∈ amenities)
  /\ (NoDup amenities -> NoDup (handleAmenityToggle amenities amenity))
  /\ (amenity ∉ amenities ->
      handleAmenityToggle (handleAmenityToggle amenities amenity) amenity
      = amenities).
Proof.
  assert (forall l x, x ∈ List.filter (fun a => negb (String.eqb a amenity)) l
                      <-> x ∈ l /\ x <> amenity) as Hfilter.
  { intros l x. by rewrite elem_of_List_filter, negb_true_iff, String.eqb_neq. }
  unfold handleAmenityToggle at 1 2 3.
  destruct (includes amenities amenity) eqn:E.
  - apply includes_elem_of in E. split; [|split; [|split]].
    + rewrite Hfilter. tauto.
    + intros other Hne. rewrite Hfilter. tauto.
    + intros Hnd. rewrite <- (list_fmap_id (List.filter _ _)).
      apply NoDup_fmap_List_filter. by rewrite list_fmap_id.
    + done.
  - assert (amenity ∉ amenities) as Hnot.
    { intros Hin%includes_elem_of. congruence. }
    split; [|split; [|split]].
    + rewrite elem_of_app, list_elem_of_singleton. tauto.
    + intros other Hne. rewrite elem_of_app, list_elem_of_singleton. tauto.
    + intros Hnd. apply NoDup_app. split; [done|].
      split; [|apply NoDup_singleton].
      intros x Hx ->%list_elem_of_singleton. done.
    + intros _. unfold handleAmenityToggle. rewrite E.
      assert (includes (amenities ++ [amenity]) amenity = true) as ->.
      { apply includes_elem_of, elem_of_app. right. by left. }
      clear E. induction amenities as [|a l IH]; simpl.
      * by rewrite String.eqb_refl.
      * apply not_elem_of_cons in Hnot as [Hne Hnot].
        destruct (String.eqb_spec a amenity); [congruence|]. simpl.
        f_equal. exact (IH Hnot).
Qed.

Section Filters.

Lemma List_filter_sublist {A} (p : A -> bool) (l : list A) :
  sublist (List.filter p l) l.
Proof.
  induction l as [|x l IH]; simpl; [constructor|].
  destruct (p x); by constructor.
Qed.

Lemma List_filter_idemp {A} (p : A -> bool) (l : list A) :
  List.filter p (List.filter p l) = List.filter p l.
Proof.
  induction l as [|x l IH]; simpl; [done|].
  destruct (p x) eqn:E; simpl; [|done]. by rewrite E, IH.
Qed.

Lemma List_filter_comm {A} (p q : A -> bool) (l : list A) :
  List.filter p (List.filter q l) = List.filter q (List.filter p l).
Proof.
  induction l as [|x l IH]; simpl; [done|].
  destruct (p x) eqn:Ep, (q x) eqn:Eq; simpl; rewrite ?Ep, ?Eq, ?IH; done.
Qed.

End Filters.

(** X28.  The filters of the home page show, in the order of the answer,
    exactly the listings whose price lies between the two bounds, both
    included, and whose bedrooms equal the chosen number when one is chosen;
    filtering twice changes nothing more.  After a reset a listing priced
    above 200000 is hidden although no filter was chosen. *)
Theorem home_page_filters_select_by_price_and_bedrooms
    (f : filters) (apartments : list priced) :
  (forall apt, apt ∈ applyFilters f apartments <->
     apt ∈ apartments
     /\ minPrice f <= nightly_price apt <= maxPrice f
     /\ (bedrooms_filter f = AllBedrooms
         \/ bedrooms_filter f = Bedrooms (bedroom_count apt)))
  /\ sublist (applyFilters f apartments) apartments
  /\ applyFilters f (applyFilters f apartments) = applyFilters f apartments
  /\ (forall apt, 200000 < nightly_price apt ->
        apt ∉ applyFilters resetFilters apartments).
Proof.
  assert (forall g apt, apt ∈ applyFilters g apartments <->
            apt ∈ apartments
            /\ minPrice g <= nightly_price apt <= maxPrice g
            /\ (bedrooms_filter g = AllBedrooms
                \/ bedrooms_filter g = Bedrooms (bedroom_count apt))) as Hin.
  { intros g apt. unfold applyFilters. cbv zeta.
    destruct (bedrooms_filter g) as [|n].
    - rewrite elem_of_List_filter, andb_true_iff, !Z.leb_le. tauto.
    - rewrite !elem_of_List_filter, andb_true_iff, !Z.leb_le, Z.eqb_eq.
      split.
      + intros ((Ha & H1 & H2) & <-). auto.
      + intros (Ha & H12 & [[=]|[= ->]]). tauto. }
  split; [apply Hin|]. split; [|split].
  - unfold applyFilters. cbv zeta. destruct (bedrooms_filter f).
    + apply List_filter_sublist.
    + etrans; apply List_filter_sublist.
  - unfold applyFilters. cbv zeta. destruct (bedrooms_filter f) as [|n].
    + apply List_filter_idemp.
    + rewrite (List_filter_comm _ (fun apt => bedroom_count apt =? n)).
      by rewrite !List_filter_idemp.
  - intros apt Hprice (_ & Hrange & _)%Hin. simpl in Hrange. lia.
Qed.

(** ** The sample data *)

Section Sample.

Implicit Types (s : store).

Lemma insert_sample_image_tables s id url primary order :
  let s' := insert_sample_image s id url primary order in
  apartments s' = apartments s
  /\ apartments_seq s' = apartments_seq s
  /\ apartment_videos s' = apartment_videos s
  /\ admin_users s' = admin_users s
  /\ exists i, apartment_images s' = (apartment_images s ++ [i])%list
       /\ (i_id i ∉ i_id <$> apartment_images s)
       /\ i_apartment_id i = id /\ image_url i = url
       /\ is_primary i = primary /\ display_order i = order.
Proof.
  cbv zeta. unfold insert_sample_image. cbn. repeat split; try done.
  eexists. split; [reflexivity|]. split; [apply next_rowid_fresh|done].
Qed.

End Sample.

(** X29.  The sample data goes into a store without listings only: a store
    that has a listing is left as it is, and a consistent store without
    listings gets one listing, available and not featured, with three
    images of which the first is the primary one, and stays consistent. *)
Theorem sample_data_only_for_an_empty_store (s : store) (now : Z) :
  consistent s ->
  (apartments s <> [] -> addSampleData s now = s)
  /\ consistent (addSampleData s now)
  /\ (apartments s = [] ->
      exists a i1 i2 i3,
        apartments (addSampleData s now) = [a]
        /\ available a = 1 /\ featured a = 0
        /\ select_images_ordered (addSampleData s now) (a_id a) = [i1; i2; i3]
        /\ is_primary i1 = 1 /\ is_primary i2 = 0 /\ is_primary i3 = 0
        /\ image_url i1 = "/uploads/images/sample1.jpg"
        /\ image_url i2 = "/uploads/images/sample2.jpg"
        /\ image_url i3 = "/uploads/images/sample3.jpg").
Proof.
  intros Hc. unfold addSampleData.
  destruct (apartments s) as [|a0 rest] eqn:Ea;
    [|split; [done|]; split; [done|discriminate]].
  split; [done|].
  destruct Hc as (Hf & Hu & Hb & Hi & [Hri Hrv] & Hp).
  assert (apartment_images s = []) as Himg.
  { destruct (apartment_images s) as [|i l] eqn:E; [done|].
    destruct (Hri i) as (a & Ha & _); [by left|].
    rewrite Ea in Ha. by apply elem_of_nil in Ha. }
  assert (apartment_videos s = []) as Hvid.
  { destruct (apartment_videos s) as [|v l] eqn:E; [done|].
    destruct (Hrv v) as (a & Ha & _); [by left|].
    rewrite Ea in Ha. by apply elem_of_nil in Ha. }
  destruct (insert_apartment s now _ _ _ _ _ _ _ _ _ 1 0 None)
    as [e|[id s1]] eqn:Ei.
  { exfalso. revert Ei. unfold insert_apartment. by cbn. }
  pose proof (insert_apartment_seq _ _ _ _ _ _ _ _ _ _ _ _ _ _ _ _ Ei) as Hseq.
  apply insert_apartment_inv in Ei
    as (Hid & Himg1 & Hvid1 & _ & new & Ha1 & Hnew & Hav & Hfe & _).
  rewrite Ea in Ha1. simpl in Ha1. rewrite Himg in Himg1. rewrite Hvid in Hvid1.
  destruct (insert_sample_image_tables s1 id "/uploads/images/sample1.jpg" 1 0)
    as (A2 & Q2 & V2 & _ & i1 & I2 & F2 & O2 & U2 & P2 & D2).
  revert A2 Q2 V2 I2.
  generalize (insert_sample_image s1 id "/uploads/images/sample1.jpg" 1 0).
  intros s2 A2 Q2 V2 I2.
  destruct (insert_sample_image_tables s2 id "/uploads/images/sample2.jpg" 0 1)
    as (A3 & Q3 & V3 & _ & i2 & I3 & F3 & O3 & U3 & P3 & D3).
  revert A3 Q3 V3 I3.
  generalize (insert_sample_image s2 id "/uploads/images/sample2.jpg" 0 1).
  intros s3 A3 Q3 V3 I3.
  destruct (insert_sample_image_tables s3 id "/uploads/images/sample3.jpg" 0 2)
    as (A4 & Q4 & V4 & _ & i3 & I4 & F4 & O4 & U4 & P4 & D4).
  revert A4 Q4 V4 I4.
  generalize (insert_sample_image s3 id "/uploads/images/sample3.jpg" 0 2).
  intros s4 A4 Q4 V4 I4.
  rewrite Himg1 in I2. simpl in I2. rewrite I2 in I3, F3. simpl in I3, F3.
  rewrite I3 in I4, F4. simpl in I4, F4.
  rewrite A3, A2, Ha1 in A4. rewrite Q3, Q2, Hseq in Q4.
  rewrite V3, V2, Hvid1 in V4.
  split.
  - split; [|split; [|split; [|split; [|split]]]].
    + intros a. rewrite A4. intros ->%list_elem_of_singleton.
      unfold boolean_flags. rewrite Hav, Hfe. auto.
    + unfold unique_apartment_ids. rewrite A4. apply NoDup_singleton.
    + intros a. rewrite A4, Q4. intros ->%list_elem_of_singleton. lia.
    + unfold unique_image_ids. rewrite I4. simpl.
      apply not_elem_of_cons in F3 as [N21 _].
      apply not_elem_of_cons in F4 as [N31 [N32 _]%not_elem_of_cons].
      repeat (apply NoDup_cons; split);
        [by intros [?|[?|?%elem_of_nil]%elem_of_cons]%elem_of_cons
        |by intros [?|?%elem_of_nil]%elem_of_cons
        |by intros ?%elem_of_nil
        |apply NoDup_nil_2].
    + split.
      * intros i. rewrite I4, A4. intros Hin. exists new.
        split; [by left|].
        rewrite !elem_of_cons, elem_of_nil in Hin.
        destruct Hin as [->|[->|[->|[]]]]; congruence.
      * intros v. rewrite V4. by intros ?%elem_of_nil.
    + intros l. unfold primary_count. rewrite I4. simpl.
      rewrite P2, P3, P4. simpl. rewrite !andb_false_r.
      destruct (i_apartment_id i1 =? l); simpl; lia.
  - intros _. exists new, i1, i2, i3. rewrite A4.
    split; [done|]. split; [done|]. split; [done|].
    split; [|by repeat split].
    unfold select_images_ordered. rewrite I4, Hnew.
    cbn [List.filter]. rewrite O2, O3, O4, !Z.eqb_refl.
    clear -P2 P3 P4 D2 D3 D4.
    destruct i1 as [n1 a1 u1 p1 o1], i2 as [n2 a2 u2 p2 o2],
      i3 as [n3 a3 u3 p3 o3].
    cbn [is_primary display_order] in *. subst. reflexivity.
Qed.

Lemma sample_data_only_for_an_empty_store_witness :
  consistent empty_store
  /\ (apartments empty_store <> [] -> addSampleData empty_store 0 = empty_store)
  /\ consistent (addSampleData empty_store 0)
  /\ (apartments empty_store = [] ->
      exists a i1 i2 i3,
        apartments (addSampleData empty_store 0) = [a]
        /\ available a = 1 /\ featured a = 0
        /\ select_images_ordered (addSampleData empty_store 0) (a_id a)
           = [i1; i2; i3]
        /\ is_primary i1 = 1 /\ is_primary i2 = 0 /\ is_primary i3 = 0
        /\ image_url i1 = "/uploads/images/sample1.jpg"
        /\ image_url i2 = "/uploads/images/sample2.jpg"
        /\ image_url i3 = "/uploads/images/sample3.jpg").
Proof.
  split; [exact empty_store_consistent|].
  exact (sample_data_only_for_an_empty_store empty_store 0
           empty_store_consistent).
Defined.
